(** * auto_poster.py: image enrichment and article publishing

  A shallow embedding of [src/auto_poster.py].  Python [str] values are
  sequences of Unicode code points, so a string is a [list N]; the two
  regular expressions of the script run on a small backtracking matcher
  with Python's priorities (greedy and lazy repetition, groups); the file
  system, the log written by [print] and the network calls are explicit in
  a [World] that every operation threads through. *)

From Stdlib Require Import String Ascii Decimal DecimalString.
From stdpp Require Import base option list gmap.

Set Default Proof Using "Type".
Open Scope N_scope.

(** ** Python strings *)

Module Py.

(** A character is a code point, a string a sequence of them. *)
Abbreviation char := N.
Abbreviation str := (list N).

(** An ASCII literal as a sequence of code points. *)
Definition lit (s : string) : str := N_of_ascii <$> list_ascii_of_string s.
Global Arguments lit : simpl never.

Definition NL : char := 10.

(** [str.isspace] on one code point, which is also what [\s] tests in a
    [str] pattern and what [str.strip()] removes. *)
Definition isspace (c : char) : bool :=
  ((9 <=? c) && (c <=? 13)) || ((28 <=? c) && (c <=? 32))
  || (c =? 133) || (c =? 160) || (c =? 5760)
  || ((8192 <=? c) && (c <=? 8202))
  || (c =? 8232) || (c =? 8233) || (c =? 8239) || (c =? 8287)
  || (c =? 12288).

(** [s.startswith(p)] *)
Fixpoint startswith (p s : str) : bool :=
  match p, s with
  | [], _ => true
  | _ :: _, [] => false
  | a :: p', b :: s' => (a =? b) && startswith p' s'
  end.

(** [p in s] *)
Fixpoint contains (p s : str) : bool :=
  startswith p s ||
  match s with
  | [] => false
  | _ :: s' => contains p s'
  end.

Fixpoint lstrip (s : str) : str :=
  match s with
  | c :: s' => if isspace c then lstrip s' else s
  | [] => []
  end.

Definition rstrip (s : str) : str := reverse (lstrip (reverse s)).

(** [s.strip()] *)
Definition strip (s : str) : str := rstrip (lstrip s).

(** [s.split('\n')[0]]: the text before the first newline. *)
Fixpoint first_line (s : str) : str :=
  match s with
  | [] => []
  | c :: s' => if c =? NL then [] else c :: first_line s'
  end.

(** [s.replace(old, new)]: occurrences are replaced from the left and do
    not overlap; [skip] counts the characters of an occurrence that are
    still to be dropped.  With an empty [old], Python puts [new] before
    every character and at the end. *)
Fixpoint replace_from (old new : str) (skip : nat) (s : str) : str :=
  match s with
  | [] => []
  | c :: s' =>
      match skip with
      | S k => replace_from old new k s'
      | O =>
          if startswith old s
          then new ++ replace_from old new (pred (length old)) s'
          else c :: replace_from old new O s'
      end
  end.

Definition replace (old new s : str) : str :=
  match old with
  | [] => foldr (fun c acc => new ++ c :: acc) new s
  | _ :: _ => replace_from old new O s
  end.

(** [s[:n]] *)
Definition slice_to (n : nat) (s : str) : str := take n s.

(** [str(n)] for a non-negative integer. *)
Definition str_of_nat (n : nat) : str :=
  lit (NilEmpty.string_of_uint (Nat.to_uint n)).

(** How an f-string shows a value that may be [None]. *)
Definition fmt_opt (o : option str) : str :=
  match o with
  | Some s => s
  | None => lit "None"
  end.

(** Truth value of a string or [None]: the empty string is false. *)
Definition truthy (o : option str) : bool :=
  match o with
  | Some (_ :: _) => true
  | _ => false
  end.

(** [text.readlines()] on text already in universal-newline form: the
    lines with their terminators, the last one maybe without. *)
Fixpoint readlines_from (cur : str) (s : str) : list str :=
  match s with
  | [] => match cur with [] => [] | _ :: _ => [cur] end
  | c :: s' =>
      if c =? NL then (cur ++ [c]) :: readlines_from [] s'
      else readlines_from (cur ++ [c]) s'
  end.

Definition readlines (s : str) : list str := readlines_from [] s.

(** Reading a text file with [newline=None] turns every [\r\n] and every
    lone [\r] into [\n]. *)
Fixpoint universal_newlines (s : str) : str :=
  match s with
  | [] => []
  | c :: s' =>
      if c =? 13 then
        NL :: match s' with
              | d :: s'' => if d =? NL then universal_newlines s''
                            else universal_newlines s'
              | [] => []
              end
      else c :: universal_newlines s'
  end.

End Py.

Import Py.

(** ** The regular expressions of the script *)

Module Re.

(** What one pattern character accepts. *)
Inductive cls :=
| CSpace                    (* \s *)
| CDot                      (* . : anything but a newline *)
| CLit (c : char)           (* a literal character *)
| CSet (cs : list char).    (* [...] *)

Definition accepts (p : cls) (c : char) : bool :=
  match p with
  | CSpace => isspace c
  | CDot => negb (c =? NL)
  | CLit a => a =? c
  | CSet cs => existsb (N.eqb c) cs
  end.

(** The fragment of [re] syntax the script uses.  [RRep greedy min p] is
    [p*] / [p+] ([min] = 0 / 1), or [p*?] / [p+?] when [greedy] is false. *)
Inductive re :=
| REps
| RChar (p : cls)
| RRep (greedy : bool) (min : nat) (p : cls)
| RSeq (a b : re)
| RGroup (n : nat) (a : re).

Definition groups := list (nat * str).

(** [m.group(n)]: the text group [n] matched last ([groups] has the
    latest capture first). *)
Fixpoint group (g : groups) (n : nat) : option str :=
  match g with
  | [] => None
  | (i, t) :: g' => if Nat.eqb i n then Some t else group g' n
  end.

Section Matcher.
Context {R : Type}.

(** The continuation gets the text still to be matched. *)
Definition cont := str → groups → option R.

(** Greedy repetition: take as many characters as possible, give one
    back at a time while the rest of the pattern fails. *)
Fixpoint rep_greedy (p : cls) (min : nat) (s : str) (g : groups)
    (k : cont) : option R :=
  let stop := match min with O => k s g | S _ => None end in
  match s with
  | c :: s' =>
      if accepts p c then
        match rep_greedy p (pred min) s' g k with
        | Some r => Some r
        | None => stop
        end
      else stop
  | [] => stop
  end.

(** Lazy repetition: take as few characters as possible, one more at a
    time while the rest of the pattern fails. *)
Fixpoint rep_lazy (p : cls) (min : nat) (s : str) (g : groups)
    (k : cont) : option R :=
  let more :=
    match s with
    | c :: s' => if accepts p c then rep_lazy p (pred min) s' g k else None
    | [] => None
    end in
  match min with
  | O => match k s g with Some r => Some r | None => more end
  | S _ => more
  end.

Fixpoint run (r : re) (s : str) (g : groups) (k : cont) : option R :=
  match r with
  | REps => k s g
  | RChar p =>
      match s with
      | c :: s' => if accepts p c then k s' g else None
      | [] => None
      end
  | RRep true min p => rep_greedy p min s g k
  | RRep false min p => rep_lazy p min s g k
  | RSeq a b => run a s g (fun s' g' => run b s' g' k)
  | RGroup n a =>
      run a s g (fun s' g' =>
        k s' ((n, take (length s - length s') s) :: g'))
  end.
End Matcher.

(** A match: the matched text (group 0), the text after it, the groups. *)
Record match_obj := { matched : str; after : str; caps : groups }.

(** [pattern.match(s)]: a match anchored at the start of [s]. *)
Definition match_ (r : re) (s : str) : option match_obj :=
  run r s [] (fun s' g =>
    Some {| matched := take (length s - length s') s; after := s'; caps := g |}).

(** [re.search(r, s)]: the first position of [s] with a match; the result
    also carries the text before the match. *)
Fixpoint search_from (r : re) (before : str) (s : str)
    : option (str * match_obj) :=
  match match_ r s with
  | Some m => Some (before, m)
  | None =>
      match s with
      | [] => None
      | c :: s' => search_from r (before ++ [c]) s'
      end
  end.

Definition search (r : re) (s : str) : option (str * match_obj) :=
  search_from r [] s.

(** A literal piece of pattern. *)
Definition RLit (s : str) : re := foldr (fun c r => RSeq (RChar (CLit c)) r) REps s.

(** [re.split(r'(?=tok)', s)] (Python 3.7 and later, where empty matches
    split): a new part starts at every position where [tok] begins, the
    first position included; [cur] is the part being read. *)
Fixpoint split_before_from (tok : str) (cur : str) (s : str) : list str :=
  match s with
  | [] => [cur]
  | c :: s' =>
      if startswith tok s then cur :: split_before_from tok [c] s'
      else split_before_from tok (cur ++ [c]) s'
  end.

Definition split_before (tok s : str) : list str := split_before_from tok [] s.

(** What a pattern may match, without the order in which the matcher
    tries things: [matches r x g] says that [r] can match the text [x]
    with the captures [g] (latest first). *)
Inductive matches : re → str → groups → Prop :=
| matches_eps : matches REps [] []
| matches_char p c :
    accepts p c = true → matches (RChar p) [c] []
| matches_rep greedy min p x :
    Forall (fun c => accepts p c = true) x → (min ≤ length x)%nat →
    matches (RRep greedy min p) x []
| matches_seq a b xa xb ga gb :
    matches a xa ga → matches b xb gb →
    matches (RSeq a b) (xa ++ xb) (gb ++ ga)
| matches_group n a x g :
    matches a x g → matches (RGroup n a) x ((n, x) :: g).

End Re.


(** ** The world the script runs in *)

(** What the script does to the outside: lines written by [print], image
    searches ([requests.get]) and post submissions ([requests.post]). *)
Inductive event :=
| Print (line : str)
| Get (base_url query : str)
| Post (url title content status : str) (auth : option str * option str).

(** Text files by path (their decoded text), the process environment after
    [load_dotenv()], and the events so far, oldest first. *)
Record world := World {
  files : gmap str str;
  environ : gmap str str;
  trace : list event
}.

Definition emit (e : event) (w : world) : world :=
  World (files w) (environ w) (trace w ++ [e]).

Definition print (line : str) (w : world) : world := emit (Print line) w.

Definition emits (es : list event) (w : world) : world :=
  World (files w) (environ w) (trace w ++ es).

(** [os.path.exists(path)] and, when it holds, [open(path, 'r')] with
    [read()]: the text of the file in universal-newline form, [None] for a
    path that does not exist. *)
Definition read_text (path : str) (w : world) : option str :=
  universal_newlines <$> files w !! path.

(** [open(path, 'w').writelines(lines)]: the file becomes the lines one
    after the other, nothing added between them. *)
Definition writelines (path : str) (lines : list str) (w : world) : world :=
  World (<[path := concat lines]> (files w)) (environ w) (trace w).

(** [os.getenv(name)] *)
Definition getenv (name : str) (w : world) : option str := environ w !! name.

(** What a guarded call to a remote service comes to: the value the [try]
    block computes, or the exception it raises, as [print] shows it. *)
Inductive attempt (A : Type) :=
| Returned (a : A)
| Raised (e : str).
Arguments Returned {A} a.
Arguments Raised {A} e.

(** What [requests.post] followed by [raise_for_status] and
    [response.json().get('id')] comes to: the identifier as [print] shows
    it, or the exception with the text of its response when it has one. *)
Inductive submission :=
| Created (id : str)
| Failed (e : str) (response_text : option str).

(** A loop body that indexes a list can raise; a loop run on fuel can run
    out of it. *)
Inductive outcome (A : Type) :=
| Ok (a : A)
| IndexError
| OutOfFuel.
Arguments Ok {A} a.
Arguments IndexError {A}.
Arguments OutOfFuel {A}.

(** ** ImageFetcher *)

Module ImageFetcher.

(** [\s*] and friends, and a sequence of pattern pieces. *)
Definition spaces0 : Re.re := Re.RRep true 0 Re.CSpace.
Definition spaces1 : Re.re := Re.RRep true 1 Re.CSpace.
Definition seq (rs : list Re.re) : Re.re := foldr Re.RSeq Re.REps rs.

Definition jp_name : nat := 1%nat.
Definition en_name : nat := 2%nat.

(** [^\s*\*\*■\s+(?P<jp_name>.+?)\s*\((?P<en_name>.+?)\)\s*[｜|]];
    the [^] says nothing more under [pattern.match], which only tries the
    start of the line. *)
Definition pattern : Re.re :=
  seq [ spaces0; Re.RLit [42; 42; 9632]; spaces1;
        Re.RGroup jp_name (Re.RRep false 1 Re.CDot);
        spaces0; Re.RChar (Re.CLit 40);
        Re.RGroup en_name (Re.RRep false 1 Re.CDot);
        Re.RChar (Re.CLit 41); spaces0;
        Re.RChar (Re.CSet [65372; 124]) ].

(** [self.pattern.match(line)] with the two names it captures. *)
Definition pattern_match (line : str) : option (str * str) :=
  m ← Re.match_ pattern line;
  jp ← Re.group (Re.caps m) jp_name;
  en ← Re.group (Re.caps m) en_name;
  Some (jp, en).

(** [line.strip().startswith("![")] *)
Definition is_image_line (line : str) : bool :=
  startswith (lit "![") (strip line).


(** [f"![{jp_name} ({en_name})]({image_url})\n\n"] *)
Definition image_reference (jp en url : str) : str :=
  lit "![" ++ jp ++ lit " (" ++ en ++ lit ")](" ++ url ++ lit ")" ++ [NL; NL].

Definition wikimedia_url : str := lit "https://commons.wikimedia.org/w/api.php".
Definition google_books_url : str := lit "https://www.googleapis.com/books/v1/volumes".

Section Sources.

(** The two image sources: what the [try] block of each fetcher comes to
    for a query (the request, the decoding of the answer and the choice of
    a URL in it). *)
Variable wikimedia : str → attempt (option str).
Variable google_books : str → attempt (option str).

Definition fetch_wikimedia_image (query : str) (w : world) : option str * world :=
  let w := print (lit "Searching Wikimedia for: " ++ query) w in
  let w := emit (Get wikimedia_url query) w in
  match wikimedia query with
  | Returned r => (r, w)
  | Raised e => (None, print (lit "Error fetching from Wikimedia: " ++ e) w)
  end.

Definition fetch_google_books_image (query : str) (w : world) : option str * world :=
  let w := print (lit "Searching Google Books for: " ++ query) w in
  let w := emit (Get google_books_url query) w in
  match google_books query with
  | Returned r => (r, w)
  | Raised e => (None, print (lit "Error fetching from Google Books: " ++ e) w)
  end.

(** The part of the loop body that runs for a marker line not followed by
    an image: look the name up, and give the lines to append. *)
Definition fetch_reference (jp en : str) (w : world) : list str * world :=
  let w := print (lit "Found photographer: " ++ en) w in
  let '(image_url, w) := fetch_wikimedia_image en w in
  let '(image_url, w) :=
    if truthy image_url then (image_url, w)
    else fetch_google_books_image en w in
  match image_url with
  | Some ((_ :: _) as url) =>
      ([image_reference jp en url], print (lit "Found image: " ++ url) w)
  | _ => ([], print (lit "No image found for " ++ en) w)
  end.

(** The [while i < len(lines)] loop of [process_file]; [i] is the index on
    entry to the body, [new_lines] the list built so far. *)
Fixpoint process_loop (fuel : nat) (lines : list str) (i : nat)
    (new_lines : list str) (w : world) : outcome (list str * world) :=
  match fuel with
  | O => OutOfFuel
  | S fuel =>
      if bool_decide (i < length lines)%nat then
        match lines !! i with
        | None => IndexError
        | Some line =>
            let new_lines := new_lines ++ [line] in
            let i := S i in
            match pattern_match line with
            | Some (jp, en) =>
                if bool_decide (i < length lines)%nat then
                  match lines !! i with
                  | None => IndexError
                  | Some next =>
                      if is_image_line next then
                        let w := print (lit "Skipping " ++ en ++
                                        lit ", image already present.") w in
                        process_loop fuel lines i new_lines w
                      else
                        let '(ins, w) := fetch_reference jp en w in
                        process_loop fuel lines i (new_lines ++ ins) w
                  end
                else
                  let '(ins, w) := fetch_reference jp en w in
                  process_loop fuel lines i (new_lines ++ ins) w
            | None => process_loop fuel lines i new_lines w
            end
        end
      else Ok (new_lines, w)
  end.

(** [ImageFetcher(filepath).process_file()]; the loop gets one unit of fuel
    per line and one for the exit test. *)
Definition process_file (filepath : str) (w : world) : outcome world :=
  match read_text filepath w with
  | None => Ok (print (lit "File not found: " ++ filepath) w)
  | Some text =>
      let lines := readlines text in
      match process_loop (S (length lines)) lines 0 [] w with
      | Ok (new_lines, w) =>
          let w := writelines filepath new_lines w in
          Ok (print (lit "Phase 1: Image injection complete.") w)
      | IndexError => IndexError
      | OutOfFuel => OutOfFuel
      end
  end.

(** *** The loop, line by line

    The same pass written by recursion on the lines still to be read, with
    the events of each step spelled out; the lemmas below show that
    [process_loop] computes it. *)

(** The value a fetcher returns for what its [try] block comes to. *)
Definition fetched (a : attempt (option str)) : option str :=
  match a with
  | Returned r => r
  | Raised _ => None
  end.

(** The line a fetcher logs when its [try] block raises. *)
Definition fetch_error (source : str) (a : attempt (option str)) : list event :=
  match a with
  | Returned _ => []
  | Raised e => [Print (lit "Error fetching from " ++ source ++ lit ": " ++ e)]
  end.

Definition wikimedia_events (query : str) : list event :=
  [Print (lit "Searching Wikimedia for: " ++ query); Get wikimedia_url query]
  ++ fetch_error (lit "Wikimedia") (wikimedia query).

Definition google_books_events (query : str) : list event :=
  [Print (lit "Searching Google Books for: " ++ query); Get google_books_url query]
  ++ fetch_error (lit "Google Books") (google_books query).

(** The image the two sources give for a name: the first source's when it
    is a non-empty URL, the second source's otherwise. *)
Definition image_for (en : str) : option str :=
  if truthy (fetched (wikimedia en)) then fetched (wikimedia en)
  else fetched (google_books en).

(** What is appended after a marker line that gets looked up. *)
Definition reference_lines (jp en : str) : list str :=
  match image_for en with
  | Some ((_ :: _) as url) => [image_reference jp en url]
  | _ => []
  end.

(** The events of one lookup, in order. *)
Definition reference_events (en : str) : list event :=
  [Print (lit "Found photographer: " ++ en)]
  ++ wikimedia_events en
  ++ (if truthy (fetched (wikimedia en)) then [] else google_books_events en)
  ++ [match image_for en with
      | Some ((_ :: _) as url) => Print (lit "Found image: " ++ url)
      | _ => Print (lit "No image found for " ++ en)
      end].

(** The lines appended after [line] and the events of that step, given the
    line that follows it in the document, if any. *)
Definition after_line (line : str) (next : option str) : list str * list event :=
  match pattern_match line with
  | None => ([], [])
  | Some (jp, en) =>
      match next with
      | Some n =>
          if is_image_line n
          then ([], [Print (lit "Skipping " ++ en ++ lit ", image already present.")])
          else (reference_lines jp en, reference_events en)
      | None => (reference_lines jp en, reference_events en)
      end
  end.

(** The lines written and the events of a pass over [lines], when [eof] is
    the line that follows the last of them, if any. *)
Fixpoint scan (lines : list str) (eof : option str) : list str * list event :=
  match lines with
  | [] => ([], [])
  | line :: rest =>
      let next := match rest with [] => eof | n :: _ => Some n end in
      let '(ins, evs) := after_line line next in
      let '(out, evs') := scan rest eof in
      (line :: ins ++ out, evs ++ evs')
  end.

End Sources.

End ImageFetcher.

(** ** WordPressPoster *)

Module WordPressPoster.

(** ["## 記事Vol"] *)
Definition header_marker : str := lit "## " ++ [35352; 20107] ++ lit "Vol".

(** ["### タイトル："] *)
Definition title_marker : str :=
  lit "### " ++ [12479; 12452; 12488; 12523; 65306].

(** [### タイトル：(.+)] *)
Definition title_pattern : Re.re :=
  Re.RSeq (Re.RLit title_marker) (Re.RGroup 1 (Re.RRep true 1 Re.CDot)).

Record article := Article { title : str; content : str }.

Record poster := Poster {
  filepath : str;
  dry_run : bool;
  wp_user : option str;
  wp_password : option str;
  wp_site : option str
}.

Definition WP_USER : str := lit "WP_USER".
Definition WP_APP_PASSWORD : str := lit "WP_APP_PASSWORD".
Definition WP_SITE_URL : str := lit "WP_SITE_URL".

(** [WordPressPoster(filepath, dry_run)] *)
Definition init (path : str) (dry : bool) (w : world) : poster * world :=
  let user := getenv WP_USER w in
  let password := getenv WP_APP_PASSWORD w in
  let site := getenv WP_SITE_URL w in
  if negb dry && negb (truthy user && truthy password && truthy site) then
    (Poster path true user password site,
     print (lit "Warning: WP credentials missing in .env. Switching to dry_run mode.") w)
  else (Poster path dry user password site, w).

(** The title and the Markdown body [split_articles] takes from one
    retained part of the text. *)
Definition title_and_body (part : str) : str * str :=
  match Re.search title_pattern part with
  | Some (_, m) =>
      (* group 1 always takes part in a match of [title_pattern] *)
      (strip (default [] (Re.group (Re.caps m) 1)),
       replace (Re.matched m) [] part)
  | None =>
      (strip (replace (lit "#") [] (first_line (strip part))), part)
  end.

(** The test that lets a part become an article. *)
Definition retained (part : str) : bool :=
  negb (bool_decide (strip part = []) || negb (contains header_marker part)).

(** The parts of the text that become articles. *)
Definition sections (text : str) : list str :=
  filter (fun part => Is_true (retained part)) (Re.split_before header_marker text).

Section Services.

(** [markdown.markdown], the Markdown renderer. *)
Variable markdown : str → str.

(** The publishing endpoint: what a submission comes to, given all that
    happened before it. *)
Variable wordpress : list event → str → str → str → submission.

Definition make_article (part : str) : article :=
  let '(t, body) := title_and_body part in
  Article t (markdown body).

(** [self.split_articles(content)] *)
Definition split_articles (text : str) : list article :=
  make_article <$> sections text.

Definition endpoint (self : poster) : str :=
  fmt_opt (wp_site self) ++ lit "/wp-json/wp/v2/posts".

(** [self.post_article(article)] *)
Definition post_article (self : poster) (a : article) (w : world) : world :=
  let url := endpoint self in
  if dry_run self then
    let w := print (lit "--- [DRY RUN] Posting Article: " ++ title a ++ lit " ---") w in
    let w := print (lit "Endpoint: " ++ url) w in
    print (lit "Payload (truncated): " ++ slice_to 100 (content a) ++ lit "...") w
  else
    let result := wordpress (trace w) url (title a) (content a) in
    let w := emit (Post url (title a) (content a) (lit "draft")
                        (wp_user self, wp_password self)) w in
    match result with
    | Created id =>
        print (lit "Successfully posted: " ++ title a ++ lit " (ID: " ++ id ++ lit ")") w
    | Failed e text =>
        let w := print (lit "Failed to post " ++ title a ++ lit ": " ++ e) w in
        match text with
        | Some t => print t w
        | None => w
        end
    end.

(** [for article in articles: self.post_article(article)] *)
Definition post_all (self : poster) (articles : list article) (w : world) : world :=
  foldl (fun w a => post_article self a w) w articles.

(** [self.process()] *)
Definition process (self : poster) (w : world) : world :=
  match read_text (filepath self) w with
  | None => print (lit "File not found: " ++ filepath self) w
  | Some text =>
      let articles := split_articles text in
      let w := print (lit "Phase 2: Found " ++ str_of_nat (length articles) ++
                      lit " articles. Starting upload...") w in
      let w := post_all self articles w in
      print (lit "Phase 2: Complete.") w
  end.

End Services.

End WordPressPoster.

(** ** The script *)

Section Main.

Variable wikimedia : str → attempt (option str).
Variable google_books : str → attempt (option str).
Variable markdown : str → str.
Variable wordpress : list event → str → str → str → submission.

Definition document : str := lit "photo_history.md".

(** The dry-run flag as [__main__] sets it before it builds the poster. *)
Definition main_dry_run (argv : list str) (w : world) : bool * world :=
  let dry := bool_decide (lit "--dry-run" ∈ argv) in
  if bool_decide (getenv WordPressPoster.WP_SITE_URL w = Some (lit "https://example.com"))
  then (true, print (lit "Detected dummy config, enforcing dry-run.") w)
  else (dry, w).

(** Phase 2 of [__main__]. *)
Definition main_publish (argv : list str) (w : world) : world :=
  let '(dry, w) := main_dry_run argv w in
  let '(self, w) := WordPressPoster.init document dry w in
  WordPressPoster.process markdown wordpress self w.

(** [if __name__ == "__main__":] *)
Definition main (argv : list str) (w : world) : outcome world :=
  match ImageFetcher.process_file wikimedia google_books document w with
  | Ok w => Ok (main_publish argv w)
  | IndexError => IndexError
  | OutOfFuel => OutOfFuel
  end.

End Main.

(** ** The splitter as the specification words it

    Second definitions, written from the sentences of the specification
    and not from the script, to be compared with the script's. *)

Module Claimed.

(** "Splits the blob into sections at every position where the header
    marker token begins a line": [bol] says that the position read is the
    beginning of a line. *)
Fixpoint split_at_line_starts_from (tok : str) (cur : str) (bol : bool)
    (s : str) : list str :=
  match s with
  | [] => [cur]
  | c :: s' =>
      if bol && startswith tok s
      then cur :: split_at_line_starts_from tok [c] (c =? NL) s'
      else split_at_line_starts_from tok (cur ++ [c]) (c =? NL) s'
  end.

Definition split_at_line_starts (tok s : str) : list str :=
  split_at_line_starts_from tok [] true s.

(** "Discards sections that are blank or do not contain the header
    marker". *)
Definition sections (text : str) : list str :=
  filter (fun part => Is_true (WordPressPoster.retained part))
         (split_at_line_starts WordPressPoster.header_marker text).

(** The lines of a section, without their terminators. *)
Fixpoint lines_from (cur : str) (s : str) : list str :=
  match s with
  | [] => [cur]
  | c :: s' =>
      if c =? NL then cur :: lines_from [] s' else lines_from (cur ++ [c]) s'
  end.

(** The title-marker line of a section: its first line that begins with
    the title-marker token. *)
Definition title_line (part : str) : option str :=
  head (filter (fun l => Is_true (startswith WordPressPoster.title_marker l))
               (lines_from [] part)).

(** "extract the remainder of that line as the title" *)
Definition title_of_line (line : str) : str :=
  strip (drop (length WordPressPoster.title_marker) line).

(** "the section's first non-empty line (with any leading header
    hashes/markup stripped)". *)
Fixpoint drop_hashes (s : str) : str :=
  match s with
  | c :: s' => if c =? 35 then drop_hashes s' else s
  | [] => []
  end.

Definition fallback_title (part : str) : str :=
  strip (drop_hashes (default [] (head (filter (fun l => l ≠ []) (lines_from [] part))))).

End Claimed.

(** ** Vocabulary of the properties *)

(** The text begins with the title marker and a character of the same
    line; the text has such a place. *)
Definition title_here (s : str) : bool :=
  startswith WordPressPoster.title_marker s &&
  match drop (length WordPressPoster.title_marker) s with
  | c :: _ => negb (c =? NL)
  | [] => false
  end.

Fixpoint has_title (part : str) : bool :=
  title_here part ||
  match part with
  | [] => false
  | _ :: part' => has_title part'
  end.

(** Dry-run mode is in effect: the flag is on the command line, or one of
    the three credentials is missing or empty, or the site is the
    placeholder of [.env.example]. *)
Definition dry_run_mode (argv : list str) (w : world) : Prop :=
  lit "--dry-run" ∈ argv ∨
  truthy (getenv WordPressPoster.WP_USER w) = false ∨
  truthy (getenv WordPressPoster.WP_APP_PASSWORD w) = false ∨
  truthy (getenv WordPressPoster.WP_SITE_URL w) = false ∨
  getenv WordPressPoster.WP_SITE_URL w = Some (lit "https://example.com").

(** The notice of a simulated post: title, endpoint, start of the content. *)
Definition simulated_post (site : option str) (a : WordPressPoster.article)
    : list event :=
  [ Print (lit "--- [DRY RUN] Posting Article: " ++ WordPressPoster.title a
           ++ lit " ---");
    Print (lit "Endpoint: " ++ fmt_opt site ++ lit "/wp-json/wp/v2/posts");
    Print (lit "Payload (truncated): " ++ take 100 (WordPressPoster.content a)
           ++ lit "...") ].

(** The submission of an article by a poster. *)
Definition submission_of (self : WordPressPoster.poster)
    (a : WordPressPoster.article) : event :=
  Post (WordPressPoster.endpoint self) (WordPressPoster.title a)
       (WordPressPoster.content a) (lit "draft")
       (WordPressPoster.wp_user self, WordPressPoster.wp_password self).

(** [![{jp_name} ({en_name})]({image_url})], the reference without the two
    newlines after it. *)
Definition image_link (jp en url : str) : str :=
  lit "![" ++ jp ++ lit " (" ++ en ++ lit ")](" ++ url ++ lit ")".

(** The URLs a lookup gives have no line break in them. *)
Definition plain_urls (image_for : str → option str) : Prop :=
  ∀ en url, image_for en = Some url → Forall (fun c => c ≠ NL ∧ c ≠ 13) url.

(** A line with its terminator: a text without newline, then a newline. *)
Definition terminated (l : str) : Prop :=
  ∃ body, l = body ++ [NL] ∧ Forall (fun c => c ≠ NL) body.

(** No proper end of [tok] is a beginning of [tok]: two occurrences of
    [tok] in a text never overlap. *)
Definition overlap_free (tok : str) : bool :=
  forallb (fun j => negb (startswith (drop j tok) tok)) (seq 1 (length tok - 1)).


(** The image searches among some events, in order: source and query. *)
Fixpoint queries (evs : list event) : list (str * str) :=
  match evs with
  | [] => []
  | Get base_url query :: evs' => (base_url, query) :: queries evs'
  | _ :: evs' => queries evs'
  end.

(** The submissions among some events, in order. *)
Fixpoint submissions (evs : list event) : list event :=
  match evs with
  | [] => []
  | Post url t c st auth :: evs' => Post url t c st auth :: submissions evs'
  | _ :: evs' => submissions evs'
  end.

(** ** Sample documents and services *)

Module Sample.

(** [**■ 木村 (Ihei Kimura) ｜ Japan**] *)
Definition marker : str :=
  [42; 42; 9632] ++ lit " " ++ [26408; 26449] ++ lit " (Ihei Kimura) "
  ++ [65372] ++ lit " Japan**".

Definition jp : str := [26408; 26449].
Definition en : str := lit "Ihei Kimura".
Definition url : str := lit "https://upload.example.org/kimura.jpg".
Definition thumbnail : str := lit "https://books.example.org/kimura-cover".

(** [![木村 (Ihei Kimura)](<url>)] *)
Definition reference (u : str) : str :=
  lit "![" ++ jp ++ lit " (Ihei Kimura)](" ++ u ++ lit ")".

Definition heading : str := lit "# Photographers" ++ [NL].
Definition note : str := lit "Born in Tokyo." ++ [NL].

(** A document with the marker between two other lines. *)
Definition text : str := heading ++ marker ++ [NL] ++ note.

(** A document that ends with the marker, with no line terminator. *)
Definition text_unterminated : str := heading ++ marker.

Definition path : str := lit "photo_history.md".

Definition world_of (t : str) : world := World {[ path := t ]} ∅ [].

(** An image source that finds the same picture for every name, one that
    finds a cover, one that finds nothing and one that fails. *)
Definition finds (_ : str) : attempt (option str) := Returned (Some url).
Definition finds_cover (_ : str) : attempt (option str) := Returned (Some thumbnail).
Definition finds_nothing (_ : str) : attempt (option str) := Returned None.

(** Sections of a document of articles. *)
Definition vol (n : string) : str := WordPressPoster.header_marker ++ lit n.
Definition titled (t : string) : str := WordPressPoster.title_marker ++ lit t.

(** Two articles with a title line each, after a preamble. *)
Definition articles_text : str :=
  lit "Photo history" ++ [NL] ++
  vol "1" ++ [NL] ++ titled " Pioneers " ++ [NL] ++ lit "Daguerre and Talbot." ++ [NL] ++
  vol "2" ++ [NL] ++ titled "Pictorialism" ++ [NL] ++ lit "Soft focus." ++ [NL].

(** The header marker in the middle of a line. *)
Definition midline_text : str := lit "See " ++ vol "1" ++ lit " below".

(** A section whose title-marker line has nothing after the marker. *)
Definition bare_title_section : str :=
  vol "1" ++ [NL] ++ WordPressPoster.title_marker ++ [NL] ++ lit "Body" ++ [NL].

(** A section whose title marker comes after other text on its line. *)
Definition indented_title_section : str :=
  vol "1" ++ [NL] ++ lit "> " ++ titled "Pioneers" ++ [NL] ++ lit "Body" ++ [NL].

(** A section with no title marker and a ['#'] inside its first line. *)
Definition hash_section : str :=
  vol "1: C# notes" ++ [NL] ++ lit "Body" ++ [NL].

(** A section with a title line. *)
Definition titled_section : str :=
  vol "1" ++ [NL] ++ titled " Pioneers " ++ [NL] ++ lit "Daguerre and Talbot." ++ [NL].

Definition render (body : str) : str := lit "<p>" ++ body ++ lit "</p>".

Definition rejects (_ : list event) (_ _ _ : str) : submission :=
  Failed (lit "401 Client Error") (Some (lit "{}")).

(** A poster with credentials, not in dry-run mode. *)
Definition live_poster : WordPressPoster.poster :=
  WordPressPoster.Poster path false (Some (lit "editor")) (Some (lit "secret"))
    (Some (lit "https://blog.example.org")).

Definition two_articles : list WordPressPoster.article :=
  [ WordPressPoster.Article (lit "Pioneers") (lit "<p>Daguerre</p>");
    WordPressPoster.Article (lit "Pictorialism") (lit "<p>Soft focus</p>") ].

(** The command line without the flag, and a world with the document of
    articles and no credentials. *)
Definition argv : list str := [lit "auto_poster.py"].
Definition unconfigured : world := World {[ document := articles_text ]} ∅ [].

(** A world without the document. *)
Definition empty_world : world := World ∅ ∅ [].

End Sample.


(** ** The two image sources, inside their [try] blocks *)

(** The values [response.json()] gives, with what the fetchers do to
    them.  A [Dict] holds the items of a Python [dict]: distinct keys, in
    insertion order.  Of a float only its truth value matters here. *)
Module Json.

Local Set Warnings "-register-all".

Inductive value :=
| Null
| Bool (b : bool)
| Int (z : Z)
| Float (nonzero : bool)
| Str (s : str)
| List (l : list value)
| Dict (items : list (str * value)).

(** The exceptions the fetchers can meet (all are caught by their
    [except Exception]); each keeps what its message is made from. *)
Inductive exn :=
| RequestFailed (what : str)               (* raised by requests *)
| AttributeError (v : value) (attr : str)  (* v has no attribute attr *)
| NotIterable (v : value)                  (* TypeError *)
| NotSubscriptable (v : value)             (* TypeError *)
| BadIndex (v i : value)                   (* TypeError: wrong kind of index *)
| Unhashable (i : value)                   (* TypeError *)
| KeyError (key : value)
| IndexError (v i : value).

Inductive result (A : Type) :=
| Val (a : A)
| Raise (e : exn).
Arguments Val {A} a.
Arguments Raise {A} e.

Definition bind {A B} (r : result A) (f : A → result B) : result B :=
  match r with
  | Val a => f a
  | Raise e => Raise e
  end.

(** [bool(v)] *)
Definition truth (v : value) : bool :=
  match v with
  | Null => false
  | Bool b => b
  | Int z => negb (Z.eqb z 0)
  | Float nonzero => nonzero
  | Str s => match s with [] => false | _ :: _ => true end
  | List l => match l with [] => false | _ :: _ => true end
  | Dict items => match items with [] => false | _ :: _ => true end
  end.

(** The value of a key in the items of a dict. *)
Fixpoint lookup_key (items : list (str * value)) (key : str) : option value :=
  match items with
  | [] => None
  | (k, v) :: items' => if bool_decide (k = key) then Some v else lookup_key items' key
  end.

(** [v.get(key, default)]: only a dict has [get]. *)
Definition get (v : value) (key : str) (otherwise : value) : result value :=
  match v with
  | Dict items => Val (default otherwise (lookup_key items key))
  | _ => Raise (AttributeError v (lit "get"))
  end.

(** [for x in v]: the keys of a dict, the elements of a list, the
    characters of a string. *)
Definition iterate (v : value) : result (list value) :=
  match v with
  | Dict items => Val ((fun kv => Str kv.1) <$> items)
  | List l => Val l
  | Str s => Val ((fun c => Str [c]) <$> s)
  | _ => Raise (NotIterable v)
  end.

(** An index: an integer, or a boolean, which Python counts as one. *)
Definition as_index (i : value) : option Z :=
  match i with
  | Int z => Some z
  | Bool b => Some (if b then 1 else 0)%Z
  | _ => None
  end.

(** [l[z]] on a sequence, where a negative [z] counts from the end. *)
Definition at_index {A} (l : list A) (z : Z) : option A :=
  if (0 <=? z)%Z then l !! Z.to_nat z
  else if (0 <=? Z.of_nat (length l) + z)%Z
       then l !! Z.to_nat (Z.of_nat (length l) + z)
       else None.

(** [v[i]] *)
Definition subscript (v i : value) : result value :=
  match v with
  | Dict items =>
      match i with
      | Str key =>
          match lookup_key items key with
          | Some x => Val x
          | None => Raise (KeyError i)
          end
      | List _ | Dict _ => Raise (Unhashable i)
      | _ => Raise (KeyError i)
      end
  | List l =>
      match as_index i with
      | Some z =>
          match at_index l z with
          | Some x => Val x
          | None => Raise (IndexError v i)
          end
      | None => Raise (BadIndex v i)
      end
  | Str s =>
      match as_index i with
      | Some z =>
          match at_index s z with
          | Some c => Val (Str [c])
          | None => Raise (IndexError v i)
          end
      | None => Raise (BadIndex v i)
      end
  | _ => Raise (NotSubscriptable v)
  end.

End Json.

Module Fetchers.

Import Json.

(** [s.endswith(suffix)] and [s.endswith((suffix, ...))] *)
Definition endswith (suffix s : str) : bool :=
  startswith (reverse suffix) (reverse s).

Definition endswith_any (suffixes : list str) (s : str) : bool :=
  existsb (fun suffix => endswith suffix s) suffixes.

(** [('.jpg', '.jpeg', '.png', '.webp')] *)
Definition image_extensions : list str :=
  [lit ".jpg"; lit ".jpeg"; lit ".png"; lit ".webp"].

Section Bodies.

(** [str.lower], which needs the case tables of Unicode. *)
Variable lower : str → str.

(** [url.lower()]: only a string has [lower]; the result comes with the
    string itself. *)
Definition lower_of (v : value) : result (str * str) :=
  match v with
  | Str s => Val (s, lower s)
  | _ => Raise (AttributeError v (lit "lower"))
  end.

(** The body of [for page_id in pages:], for the page ids still to come;
    it returns on the first URL with an image extension. *)
Fixpoint pages_loop (pages : value) (ids : list value) : result (option str) :=
  match ids with
  | [] => Val None
  | page_id :: ids' =>
      bind (subscript pages page_id) (fun page =>
      bind (get page (lit "imageinfo") (List [])) (fun image_info =>
      if truth image_info then
        bind (subscript image_info (Int 0)) (fun first =>
        bind (subscript first (Str (lit "url"))) (fun url =>
        bind (lower_of url) (fun '(u, lowered) =>
        if endswith_any image_extensions lowered then Val (Some u)
        else pages_loop pages ids')))
      else pages_loop pages ids'))
  end.

(** The [try] block of [fetch_wikimedia_image], from the value of
    [response.json()] on (or the exception met before it). *)
Definition fetch_wikimedia_image_try (response : result value)
    : result (option str) :=
  bind response (fun data =>
  bind (get data (lit "query") (Dict [])) (fun query =>
  bind (get query (lit "pages") (Dict [])) (fun pages =>
  if negb (truth pages) then Val None
  else bind (iterate pages) (pages_loop pages)))).

(** The [try] block of [fetch_google_books_image]; [Null] is [None]. *)
Definition fetch_google_books_image_try (response : result value)
    : result value :=
  bind response (fun data =>
  bind (get data (lit "items") (List [])) (fun items =>
  if negb (truth items) then Val Null
  else
    bind (subscript items (Int 0)) (fun first =>
    bind (get first (lit "volumeInfo") (Dict [])) (fun volume_info =>
    bind (get volume_info (lit "imageLinks") (Dict [])) (fun image_links =>
    get image_links (lit "thumbnail") Null))))).

(** What [print] shows of an exception. *)
Variable describe : exn → str.

(** Source A as [fetch_wikimedia_image] uses it, given what the request
    for a query comes to. *)
Definition wikimedia_of (commons : str → result value)
    : str → attempt (option str) :=
  fun query =>
    match fetch_wikimedia_image_try (commons query) with
    | Val r => Returned r
    | Raise e => Raised (describe e)
    end.

End Bodies.

End Fetchers.

(** ** Further vocabulary *)

(** The number of positions of [s] where [tok] begins. *)
Fixpoint occurrences (tok s : str) : nat :=
  (if startswith tok s then 1 else 0) +
  match s with
  | [] => 0
  | _ :: s' => occurrences tok s'
  end.


(** What a page of a search result offers: no image (its [imageinfo] is
    missing or empty), or the URL of the first entry of its [imageinfo]. *)
Definition offers (page : Json.value) (url : option str) : Prop :=
  ∃ fields, page = Json.Dict fields ∧
    match url with
    | None =>
        Json.truth (default (Json.List [])
                      (Json.lookup_key fields (lit "imageinfo"))) = false
    | Some u =>
        ∃ info rest,
          Json.lookup_key fields (lit "imageinfo")
            = Some (Json.List (Json.Dict info :: rest)) ∧
          Json.lookup_key info (lit "url") = Some (Json.Str u)
    end.

(** The first of the URLs offered that has an image extension once in
    lower case. *)
Definition first_image (lower : str → str) (urls : list (option str))
    : option str :=
  head (filter (fun u => Is_true (Fetchers.endswith_any
                                    Fetchers.image_extensions (lower u)))
               (omap id urls)).

(** A text of whitespace only. *)
Definition blank (s : str) : bool := forallb isspace s.

(** A line in the format of the marker pattern: optional whitespace, the
    three characters [**■], whitespace, a first name, optional whitespace,
    a second name between brackets, optional whitespace, one of the two
    bars, and whatever follows. *)
Definition marker_format (ws ws1 jp ws2 en ws3 : str) (bar : char) (tail : str)
    : str :=
  ws ++ [42; 42; 9632] ++ ws1 ++ jp ++ ws2 ++ [40] ++ en ++ [41] ++ ws3
  ++ bar :: tail.

(** More sample data. *)
Module Sample2.

(** A marker line with an indent, a half-width bar and two spaces before
    the first name. *)
Definition marker_line : str :=
  lit "  " ++ [42; 42; 9632] ++ lit "  " ++ Sample.jp ++ lit "  (Ihei Kimura) | Japan**" ++ [NL].

(** A document without a marker line. *)
Definition plain_text : str := Sample.heading ++ Sample.note.

(** A document whose marker line already has its image line. *)
Definition enriched_text : str :=
  Sample.heading ++ Sample.marker ++ [NL] ++
  lit "  " ++ Sample.reference Sample.url ++ [NL] ++ Sample.note.

(** Answers of the image search: two pages, the first with a PDF, the
    second with a picture; and the same with a first page whose
    [imageinfo] entry has no URL. *)
Definition page (name : string) (url : string) : str * Json.value :=
  (lit name,
   Json.Dict [(lit "title", Json.Str (lit name));
              (lit "imageinfo",
               Json.List [Json.Dict [(lit "url", Json.Str (lit url))]])]).

Definition answer_items (pages : list (str * Json.value))
    : list (str * Json.value) :=
  [(lit "batchcomplete", Json.Str []);
   (lit "query", Json.Dict [(lit "pages", Json.Dict pages)])].

Definition answer (pages : list (str * Json.value)) : Json.value :=
  Json.Dict (answer_items pages).

Definition two_pages : list (str * Json.value) :=
  [page "101" "https://upload.example.org/Kimura.PDF";
   page "102" "https://upload.example.org/Kimura.JPG"].

Definition broken_page : str * Json.value :=
  (lit "100",
   Json.Dict [(lit "imageinfo", Json.List [Json.Dict [(lit "size", Json.Int 3)]])]).

(** Lower case for ASCII letters, which is all the sample URLs have. *)
Definition ascii_lower (s : str) : str :=
  (fun c => if (65 <=? c) && (c <=? 90) then c + 32 else c) <$> s.

(** An answer of the book search: one volume with a thumbnail, then one
    without. *)
Definition image_links : list (str * Json.value) :=
  [(lit "smallThumbnail", Json.Str (lit "https://books.example.org/kimura-small"));
   (lit "thumbnail", Json.Str Sample.thumbnail)].

Definition volume_info : list (str * Json.value) :=
  [(lit "title", Json.Str (lit "Kimura")); (lit "imageLinks", Json.Dict image_links)].

Definition volume : list (str * Json.value) :=
  [(lit "id", Json.Str (lit "v1")); (lit "volumeInfo", Json.Dict volume_info)].

Definition volumes : list (str * Json.value) :=
  [(lit "totalItems", Json.Int 2);
   (lit "items",
    Json.List [Json.Dict volume; Json.Dict [(lit "volumeInfo", Json.Dict [])]])].

(** A world with the document of articles and the three credentials. *)
Definition configured : world :=
  World {[ document := Sample.articles_text ]}
        {[ WordPressPoster.WP_USER := lit "editor";
           WordPressPoster.WP_APP_PASSWORD := lit "secret";
           WordPressPoster.WP_SITE_URL := lit "https://blog.example.org" ]} [].

End Sample2.

(** * Properties *)

(** ** The world *)

Lemma emits_nil w : emits [] w = w.
Proof. destruct w; unfold emits; simpl. by rewrite app_nil_r. Qed.

Lemma emits_emits es es' w : emits es' (emits es w) = emits (es ++ es') w.
Proof. unfold emits; simpl. by rewrite app_assoc. Qed.

Lemma emit_emits e w : emit e w = emits [e] w.
Proof. done. Qed.

Lemma print_emits l w : print l w = emits [Print l] w.
Proof. done. Qed.

(** ** Strings *)

Lemma startswith_app p r : startswith p (p ++ r) = true.
Proof. induction p as [|a p IH]; simpl; [done|]. by rewrite N.eqb_refl. Qed.

Lemma startswith_inv p s : startswith p s = true → s = p ++ drop (length p) s.
Proof.
  revert s. induction p as [|a p IH]; intros [|b s] H; simpl in *; try done.
  apply andb_true_iff in H as [Hab H]. apply N.eqb_eq in Hab as ->.
  f_equal. by apply IH.
Qed.

Lemma startswith_spec p s : startswith p s = true ↔ ∃ r, s = p ++ r.
Proof.
  split.
  - intros H. eexists. by apply startswith_inv.
  - intros [r ->]. apply startswith_app.
Qed.

Lemma startswith_app_l p s r : startswith p s = true → startswith p (s ++ r) = true.
Proof.
  intros [q ->]%startswith_spec. rewrite <- app_assoc. apply startswith_app.
Qed.

Lemma startswith_nil p : p ≠ [] → startswith p [] = false.
Proof. by destruct p. Qed.

Lemma startswith_short p s : (length s < length p)%nat → startswith p s = false.
Proof.
  intros Hlen. destruct (startswith p s) eqn:H; [|done].
  apply startswith_inv in H. rewrite H, length_app in Hlen. lia.
Qed.

(** [p in s] holds exactly when [p] begins at some position of [s]. *)
Lemma contains_spec p s :
  contains p s = true ↔ ∃ j, startswith p (drop j s) = true.
Proof.
  induction s as [|c s IH]; simpl.
  - rewrite orb_false_r. split.
    + intros H. by exists 0%nat.
    + intros [j H]. by rewrite drop_nil in H.
  - rewrite orb_true_iff, IH. split.
    + intros [H|[j H]]; [by exists 0%nat | by exists (S j)].
    + intros [[|j] H]; [by left | right; by exists j].
Qed.

Lemma contains_false p s :
  contains p s = false ↔ ∀ j, startswith p (drop j s) = false.
Proof.
  split.
  - intros H j. destruct (startswith p (drop j s)) eqn:Hj; [|done].
    assert (contains p s = true) by (apply contains_spec; eauto). congruence.
  - intros H. destruct (contains p s) eqn:Hc; [|done].
    apply contains_spec in Hc as [j Hj]. by rewrite H in Hj.
Qed.

Lemma contains_occurrence p s :
  contains p s = true ↔ ∃ a b, s = a ++ p ++ b.
Proof.
  rewrite contains_spec. split.
  - intros [j [r Hr]%startswith_spec]. exists (take j s), r.
    by rewrite <- Hr, take_drop.
  - intros (a & b & ->). exists (length a).
    rewrite drop_app_length. apply startswith_app.
Qed.

(** Whitespace at both ends. *)

Lemma lstrip_all_space s : forallb isspace s = true → lstrip s = [].
Proof.
  induction s as [|c s IH]; simpl; [done|].
  intros [-> Hs]%andb_true_iff. auto.
Qed.

Lemma lstrip_app_space ws s : forallb isspace ws = true → lstrip (ws ++ s) = lstrip s.
Proof.
  induction ws as [|c ws IH]; simpl; [done|].
  intros [-> Hs]%andb_true_iff. auto.
Qed.

Lemma lstrip_nonspace c s : isspace c = false → lstrip (c :: s) = c :: s.
Proof. simpl. by intros ->. Qed.

Lemma lstrip_app_keep s r :
  forallb isspace s = false → lstrip (s ++ r) = lstrip s ++ r.
Proof.
  induction s as [|c s IH]; simpl; [done|].
  destruct (isspace c); simpl; [apply IH | done].
Qed.

Lemma lstrip_nil_inv s : lstrip s = [] → forallb isspace s = true.
Proof.
  induction s as [|c s IH]; simpl; [done|].
  destruct (isspace c); simpl; [apply IH | done].
Qed.

Lemma forallb_reverse (f : char → bool) s : forallb f (reverse s) = forallb f s.
Proof.
  induction s as [|c s IH]; [done|].
  rewrite reverse_cons, forallb_app, IH. simpl.
  rewrite andb_true_r. apply andb_comm.
Qed.

Lemma rstrip_app_space s ws : forallb isspace ws = true → rstrip (s ++ ws) = rstrip s.
Proof.
  intros Hws. unfold rstrip. rewrite reverse_app, lstrip_app_space; [done|].
  by rewrite forallb_reverse.
Qed.

Lemma rstrip_app_keep s r :
  forallb isspace r = false → rstrip (s ++ r) = s ++ rstrip r.
Proof.
  intros Hr. unfold rstrip.
  rewrite reverse_app, lstrip_app_keep by by rewrite forallb_reverse.
  by rewrite reverse_app, reverse_involutive.
Qed.

Lemma rstrip_all_space s : forallb isspace s = true → rstrip s = [].
Proof.
  intros Hs. unfold rstrip. by rewrite lstrip_all_space by by rewrite forallb_reverse.
Qed.

Lemma rstrip_nil_inv s : rstrip s = [] → forallb isspace s = true.
Proof.
  unfold rstrip. intros H. apply (f_equal reverse) in H.
  rewrite reverse_involutive in H. apply lstrip_nil_inv in H.
  by rewrite forallb_reverse in H.
Qed.

(** A string that begins with a character that is not whitespace is not
    blank, and stripping it only touches its end. *)
Lemma strip_nonspace c s : isspace c = false → strip (c :: s) = c :: rstrip s.
Proof.
  intros Hc. unfold strip. rewrite lstrip_nonspace by done.
  assert (rstrip [c] = [c]) as Hone.
  { unfold rstrip. rewrite reverse_singleton. simpl. by rewrite Hc. }
  change (c :: s) with ([c] ++ s).
  destruct (forallb isspace s) eqn:Hs.
  - by rewrite (rstrip_app_space [c] s Hs), (rstrip_all_space s Hs), Hone.
  - by rewrite (rstrip_app_keep [c] s Hs).
Qed.

Lemma rstrip_nonspace c s : isspace c = false → rstrip (c :: s) = c :: rstrip s.
Proof.
  intros Hc. rewrite <- (strip_nonspace c s Hc). unfold strip.
  by rewrite lstrip_nonspace.
Qed.

(** ** Lines *)

Lemma readlines_from_concat cur s : concat (readlines_from cur s) = cur ++ s.
Proof.
  revert cur. induction s as [|c s IH]; intros cur; simpl.
  - destruct cur; simpl; by rewrite ?app_nil_r.
  - destruct (c =? NL) eqn:Hc; simpl; rewrite IH; by rewrite <- ?app_assoc.
Qed.

(** The lines of a text, put together, are the text. *)
Lemma readlines_concat s : concat (readlines s) = s.
Proof. apply readlines_from_concat. Qed.

Lemma readlines_from_line cur body rest :
  Forall (fun c => c ≠ NL) body →
  readlines_from cur (body ++ NL :: rest) =
    (cur ++ body ++ [NL]) :: readlines_from [] rest.
Proof.
  intros Hbody. revert cur.
  induction Hbody as [|c body Hc _ IH]; intros cur; simpl.
  - done.
  - apply N.eqb_neq in Hc as ->. rewrite IH. by rewrite <- app_assoc.
Qed.

Lemma readlines_terminated l rest :
  terminated l → readlines (l ++ rest) = l :: readlines rest.
Proof.
  intros (body & -> & Hbody). unfold readlines.
  rewrite <- app_assoc. simpl. by rewrite readlines_from_line.
Qed.

Lemma readlines_from_terminated cur t :
  Forall (fun c => c ≠ NL) cur →
  Forall terminated (readlines_from cur (t ++ [NL])).
Proof.
  revert cur. induction t as [|c t IH]; intros cur Hcur; simpl.
  - repeat constructor. by exists cur.
  - destruct (N.eqb_spec c NL) as [->|Hc].
    + constructor; [by exists cur|]. by apply IH.
    + apply IH. apply Forall_app. split; [done|]. by repeat constructor.
Qed.

(** Every line of a text that ends with a newline is terminated. *)
Lemma readlines_all_terminated text :
  text = [] ∨ (∃ t, text = t ++ [NL]) → Forall terminated (readlines text).
Proof.
  intros [->|[t ->]]; [constructor|]. by apply readlines_from_terminated.
Qed.

(** Universal newlines leave no carriage return, and leave a text without
    carriage returns as it is. *)
Lemma universal_newlines_no_cr s : Forall (fun c => c ≠ 13) (universal_newlines s).
Proof.
  remember (length s) as n eqn:Hn. revert s Hn.
  induction n as [n IH] using lt_wf_ind. intros [|c s] Hn; simpl; [constructor|].
  simpl in Hn. destruct (N.eqb_spec c 13) as [->|Hc].
  - constructor; [done|]. destruct s as [|d s]; [constructor|].
    destruct (d =? NL); (eapply IH; [|reflexivity]); simpl in *; lia.
  - constructor; [done|]. eapply IH; [|reflexivity]. lia.
Qed.

Lemma universal_newlines_id s :
  Forall (fun c => c ≠ 13) s → universal_newlines s = s.
Proof.
  induction 1 as [|c s Hc _ IH]; simpl; [done|].
  apply N.eqb_neq in Hc as ->. by rewrite IH.
Qed.

(** ** The matcher finds only what the pattern may match *)

Section MatcherFacts.
Context {R : Type}.
Implicit Types (k : @Re.cont R) (s x : str) (g : Re.groups).

Lemma rep_greedy_sound p min s g k res :
  Re.rep_greedy p min s g k = Some res →
  ∃ x s', s = x ++ s' ∧ Forall (fun c => Re.accepts p c = true) x ∧
          (min ≤ length x)%nat ∧ k s' g = Some res.
Proof.
  revert min. induction s as [|c s IH]; intros min Hrun.
  - destruct min; [|done]. exists [], []. split_and!; auto.
  - cbn [Re.rep_greedy] in Hrun. destruct (Re.accepts p c) eqn:Hc.
    + destruct (Re.rep_greedy p (pred min) s g k) as [r|] eqn:Hrec.
      * injection Hrun as ->. destruct (IH _ Hrec) as (x & s' & -> & Hx & Hmin & Hk).
        exists (c :: x), s'. split_and!; auto. simpl. lia.
      * destruct min; [|done]. exists [], (c :: s). split_and!; auto.
    + destruct min; [|done]. exists [], (c :: s). split_and!; auto.
Qed.

Lemma rep_lazy_sound p min s g k res :
  Re.rep_lazy p min s g k = Some res →
  ∃ x s', s = x ++ s' ∧ Forall (fun c => Re.accepts p c = true) x ∧
          (min ≤ length x)%nat ∧ k s' g = Some res.
Proof.
  revert min. induction s as [|c s IH]; intros min Hrun.
  - destruct min; [|done]. cbn [Re.rep_lazy] in Hrun.
    destruct (k [] g) eqn:Hk; [|done]. injection Hrun as ->.
    exists [], []. split_and!; auto.
  - assert (Re.rep_lazy p (pred min) s g k = Some res ∧ Re.accepts p c = true →
            ∃ x s', c :: s = x ++ s' ∧ Forall (fun c => Re.accepts p c = true) x ∧
                    (min ≤ length x)%nat ∧ k s' g = Some res) as Hmore.
    { intros [Hrec Hc]. destruct (IH _ Hrec) as (x & s' & -> & Hx & Hmin & Hk).
      exists (c :: x), s'. split_and!; auto. simpl. lia. }
    cbn [Re.rep_lazy] in Hrun. destruct min.
    + destruct (k (c :: s) g) eqn:Hk.
      * injection Hrun as ->. exists [], (c :: s). split_and!; auto.
      * destruct (Re.accepts p c); [auto | done].
    + destruct (Re.accepts p c); [auto | done].
Qed.

End MatcherFacts.

Lemma run_sound {R} r s g (k : @Re.cont R) res :
  Re.run r s g k = Some res →
  ∃ x s' new, s = x ++ s' ∧ Re.matches r x new ∧ k s' (new ++ g) = Some res.
Proof.
  revert s g k. induction r as [|p|greedy min p|a IHa b IHb|n a IHa];
    intros s g k Hrun; cbn [Re.run] in Hrun.
  - exists [], s, []. split_and!; auto. constructor.
  - destruct s as [|c s]; [done|]. destruct (Re.accepts p c) eqn:Hc; [|done].
    exists [c], s, []. split_and!; auto. by constructor.
  - assert (∃ x s', s = x ++ s' ∧ Forall (fun c => Re.accepts p c = true) x ∧
                    (min ≤ length x)%nat ∧ k s' g = Some res)
      as (x & s' & -> & Hx & Hmin & Hk).
    { destruct greedy; [by apply rep_greedy_sound | by apply rep_lazy_sound]. }
    exists x, s', []. split_and!; auto. by constructor.
  - apply IHa in Hrun as (xa & s1 & ga & -> & Ha & Hrun).
    apply IHb in Hrun as (xb & s2 & gb & -> & Hb & Hk).
    exists (xa ++ xb), s2, (gb ++ ga). rewrite <- !app_assoc.
    split_and!; auto. by constructor.
  - apply IHa in Hrun as (x & s' & ga & -> & Ha & Hk).
    rewrite length_app, Nat.add_sub, take_app_length in Hk.
    exists x, s', ((n, x) :: ga). split_and!; auto. by constructor.
Qed.

(** What a match of the marker pattern captures: two names of the line,
    neither empty, neither with a newline, the second between brackets. *)
Lemma pattern_match_inv line jp en :
  ImageFetcher.pattern_match line = Some (jp, en) →
  jp ≠ [] ∧ en ≠ [] ∧
  Forall (fun c => c ≠ NL) jp ∧ Forall (fun c => c ≠ NL) en ∧
  ∃ a b c, line = a ++ jp ++ b ++ [40] ++ en ++ [41] ++ c.
Proof.
  unfold ImageFetcher.pattern_match, Re.match_. intros Hm.
  destruct (Re.run _ line [] _) as [m|] eqn:Hrun; [|done].
  apply run_sound in Hrun as (x & s' & new & -> & Hmatches & Hk).
  injection Hk as <-. cbn [mbind option_bind Re.caps] in Hm.
  rewrite app_nil_r in Hm.
  unfold ImageFetcher.pattern, ImageFetcher.seq, Re.RLit,
    ImageFetcher.spaces0, ImageFetcher.spaces1 in Hmatches.
  cbn [foldr] in Hmatches.
  repeat match goal with
  | H : Re.matches (Re.RSeq _ _) _ _ |- _ => inversion H; subst; clear H
  | H : Re.matches (Re.RGroup _ _) _ _ |- _ => inversion H; subst; clear H
  | H : Re.matches (Re.RChar _) _ _ |- _ => inversion H; subst; clear H
  | H : Re.matches Re.REps _ _ |- _ => inversion H; subst; clear H
  | H : Re.matches (Re.RRep _ _ _) _ _ |- _ => inversion H; subst; clear H
  end.
  cbn in Hm. injection Hm as <- <-.
  repeat match goal with
  | H : Re.accepts (Re.CLit _) _ = true |- _ =>
      cbn [Re.accepts] in H; apply N.eqb_eq in H; subst
  end.
  assert (∀ y : str, Forall (fun c => Re.accepts Re.CDot c = true) y →
                     Forall (fun c => c ≠ NL) y) as Hdot.
  { intros y Hy. eapply Forall_impl; [exact Hy|]. intros d Hd ->. done. }
  split_and!; auto.
  - intros ->. cbn in *. lia.
  - intros ->. cbn in *. lia.
  - exists (xa ++ [42; 42; 9632] ++ xa1), xa3, (xa7 ++ [c2] ++ s').
    by rewrite <- !app_assoc.
Qed.

(** ** ImageFetcher: the loop computes [scan] *)

Section SourcesFacts.

Variable wikimedia : str → attempt (option str).
Variable google_books : str → attempt (option str).

Abbreviation fetch_reference := (ImageFetcher.fetch_reference wikimedia google_books).
Abbreviation process_loop := (ImageFetcher.process_loop wikimedia google_books).
Abbreviation process_file := (ImageFetcher.process_file wikimedia google_books).
Abbreviation scan := (ImageFetcher.scan wikimedia google_books).
Abbreviation after_line := (ImageFetcher.after_line wikimedia google_books).
Abbreviation reference_lines := (ImageFetcher.reference_lines wikimedia google_books).
Abbreviation reference_events := (ImageFetcher.reference_events wikimedia google_books).
Abbreviation image_for := (ImageFetcher.image_for wikimedia google_books).

Lemma fetch_reference_spec jp en w :
  fetch_reference jp en w = (reference_lines jp en, emits (reference_events en) w).
Proof.
  unfold ImageFetcher.fetch_reference, ImageFetcher.reference_lines,
    ImageFetcher.reference_events, ImageFetcher.image_for,
    ImageFetcher.fetch_wikimedia_image, ImageFetcher.fetch_google_books_image,
    ImageFetcher.wikimedia_events, ImageFetcher.google_books_events.
  rewrite !print_emits, !emit_emits.
  destruct (wikimedia en) as [[[|c u]|]|e]; simpl;
    try (destruct (google_books en) as [[[|c' u']|]|e']; simpl);
    rewrite ?print_emits, ?emit_emits, ?emits_emits; simpl; done.
Qed.

Lemma scan_cons line rest eof :
  scan (line :: rest) eof =
    (line :: (after_line line (match rest with [] => eof | n :: _ => Some n end)).1
       ++ (scan rest eof).1,
     (after_line line (match rest with [] => eof | n :: _ => Some n end)).2
       ++ (scan rest eof).2).
Proof.
  simpl. destruct (after_line line _) as [ins evs].
  by destruct (scan rest eof) as [out evs'].
Qed.

(** The step of the loop on a marker line, with or without a next line. *)
Lemma after_line_step line next w :
  match ImageFetcher.pattern_match line with
  | Some (jp, en) =>
      match next with
      | Some n =>
          if ImageFetcher.is_image_line n
          then ([], print (lit "Skipping " ++ en ++ lit ", image already present.") w)
          else fetch_reference jp en w
      | None => fetch_reference jp en w
      end
  | None => ([], w)
  end = ((after_line line next).1, emits (after_line line next).2 w).
Proof.
  unfold ImageFetcher.after_line.
  destruct (ImageFetcher.pattern_match line) as [[jp en]|]; simpl;
    [|by rewrite emits_nil].
  destruct next as [n|]; [destruct (ImageFetcher.is_image_line n)|];
    simpl; by rewrite ?fetch_reference_spec.
Qed.

Lemma process_loop_scan fuel lines i acc w :
  (length lines - i < fuel)%nat →
  process_loop fuel lines i acc w =
    Ok (acc ++ (scan (drop i lines) None).1,
        emits (scan (drop i lines) None).2 w).
Proof.
  revert i acc w. induction fuel as [|fuel IH]; intros i acc w Hfuel; [lia|].
  cbn [ImageFetcher.process_loop]. case_bool_decide as Hi.
  - destruct (lookup_lt_is_Some_2 lines i Hi) as [line Hline].
    rewrite Hline, (drop_S _ _ _ Hline), scan_cons. cbn [fst snd].
    pose proof (after_line_step line (lines !! S i) w) as Hstep.
    assert (match drop (S i) lines with [] => None | n :: _ => Some n end
            = lines !! S i) as ->.
    { destruct (lines !! S i) as [n|] eqn:Hn.
      - by rewrite (drop_S _ _ _ Hn).
      - apply lookup_ge_None_1 in Hn. by rewrite drop_ge. }
    destruct (ImageFetcher.pattern_match line) as [[jp en]|].
    + case_bool_decide as Hi'.
      * destruct (lookup_lt_is_Some_2 lines (S i) Hi') as [n Hn].
        rewrite Hn in Hstep |- *.
        destruct (ImageFetcher.is_image_line n).
        -- apply pair_equal_spec in Hstep as [Hins Hw].
           rewrite IH by lia. rewrite <- Hins, Hw, emits_emits.
           by rewrite <- !app_assoc.
        -- destruct (fetch_reference jp en w) as [ins w'].
           apply pair_equal_spec in Hstep as [-> ->]. rewrite IH by lia.
           rewrite emits_emits. by rewrite <- !app_assoc.
      * rewrite (lookup_ge_None_2 lines (S i)) in Hstep |- * by lia.
        destruct (fetch_reference jp en w) as [ins w'].
        apply pair_equal_spec in Hstep as [-> ->]. rewrite IH by lia.
        rewrite emits_emits. by rewrite <- !app_assoc.
    + apply pair_equal_spec in Hstep as [Hins Hw]. rewrite IH by lia.
      rewrite <- Hins. rewrite Hw at 1. rewrite emits_emits.
      by rewrite <- !app_assoc.
  - rewrite drop_ge by lia. simpl. by rewrite app_nil_r, emits_nil.
Qed.

(** The whole of [process_file] on a file that exists. *)
Lemma process_file_scan path w text :
  read_text path w = Some text →
  process_file path w =
    Ok (print (lit "Phase 1: Image injection complete.")
          (writelines path (scan (readlines text) None).1
             (emits (scan (readlines text) None).2 w))).
Proof.
  intros Hread. unfold ImageFetcher.process_file. rewrite Hread.
  rewrite process_loop_scan by lia. by rewrite drop_0.
Qed.

Lemma scan_app pre rest eof :
  scan (pre ++ rest) eof =
    ((scan pre (match rest with [] => eof | n :: _ => Some n end)).1
       ++ (scan rest eof).1,
     (scan pre (match rest with [] => eof | n :: _ => Some n end)).2
       ++ (scan rest eof).2).
Proof.
  induction pre as [|line pre IH].
  - simpl. by destruct (scan rest eof).
  - change ((line :: pre) ++ rest) with (line :: (pre ++ rest)).
    rewrite !scan_cons, IH. cbn [fst snd].
    assert (match pre ++ rest with [] => eof | n :: _ => Some n end =
            match pre with
            | [] => match rest with [] => eof | n :: _ => Some n end
            | n :: _ => Some n
            end) as -> by by destruct pre.
    rewrite <- !app_assoc. by rewrite <- app_comm_cons, <- app_assoc.
Qed.





Lemma queries_app evs evs' : queries (evs ++ evs') = queries evs ++ queries evs'.
Proof.
  induction evs as [|[]]; simpl; by rewrite ?IHevs.
Qed.

Lemma queries_fetch_error source a : queries (ImageFetcher.fetch_error source a) = [].
Proof. by destruct a. Qed.

(** Which sources one lookup asks, and in which order. *)
Lemma queries_reference_events en :
  queries (reference_events en) =
    (ImageFetcher.wikimedia_url, en) ::
    if truthy (ImageFetcher.fetched (wikimedia en)) then []
    else [(ImageFetcher.google_books_url, en)].
Proof.
  unfold ImageFetcher.reference_events, ImageFetcher.wikimedia_events,
    ImageFetcher.google_books_events.
  rewrite !queries_app, queries_fetch_error. cbn [queries app]. f_equal.
  destruct (truthy _); cbn [queries app];
    rewrite ?queries_app, ?queries_fetch_error;
    by destruct (image_for en) as [[]|].
Qed.






Lemma files_after_pass path new_lines evs w :
  files (print (lit "Phase 1: Image injection complete.")
           (writelines path new_lines (emits evs w))) !! path
  = Some (concat new_lines).
Proof. unfold print, emit, writelines, emits; simpl. apply lookup_insert_eq. Qed.

Lemma trace_after_pass path new_lines evs w :
  trace (print (lit "Phase 1: Image injection complete.")
           (writelines path new_lines (emits evs w)))
  = trace w ++ evs ++ [Print (lit "Phase 1: Image injection complete.")].
Proof. unfold print, emit, writelines, emits; simpl. by rewrite app_assoc. Qed.





(** A marker line followed by an image-reference line: the turn on the
    marker copies it and inserts nothing, and the next turn copies the
    image line, so the pair is written as it was read. *)
Lemma marker_with_image_kept pre M L post jp en fuel acc w :
  ImageFetcher.pattern_match M = Some (jp, en) →
  ImageFetcher.is_image_line L = true →
  process_loop (S fuel) (pre ++ M :: L :: post) (length pre) acc w =
    process_loop fuel (pre ++ M :: L :: post) (S (length pre)) (acc ++ [M])
      (print (lit "Skipping " ++ en ++ lit ", image already present.") w).
Proof.
  intros Hm HL. cbn [ImageFetcher.process_loop].
  rewrite bool_decide_eq_true_2 by (rewrite length_app; simpl; lia).
  rewrite list_lookup_middle by done. rewrite Hm.
  rewrite bool_decide_eq_true_2 by (rewrite !length_app; simpl; lia).
  rewrite (cons_middle M), app_assoc.
  rewrite (list_lookup_middle _ _ L (S (length pre)))
    by (rewrite length_app; simpl; lia).
  by rewrite HL.
Qed.

Lemma marker_with_image_written pre M L post jp en :
  ImageFetcher.pattern_match M = Some (jp, en) →
  ImageFetcher.is_image_line L = true →
  (scan (pre ++ M :: L :: post) None).1 =
    (scan pre (Some M)).1 ++ M :: (scan (L :: post) None).1.
Proof.
  intros Hm HL. rewrite scan_app, scan_cons. cbn [fst].
  unfold ImageFetcher.after_line at 1. by rewrite Hm, HL.
Qed.

End SourcesFacts.

(** Witnesses on the sample document. *)




(** ** WordPressPoster: the sections *)

Lemma split_before_from_concat tok cur s :
  concat (Re.split_before_from tok cur s) = cur ++ s.
Proof.
  revert cur. induction s as [|c s IH]; intros cur; simpl.
  - by rewrite app_nil_r.
  - destruct (startswith tok (c :: s)); simpl; rewrite IH; [done|].
    by rewrite <- app_assoc.
Qed.

(** The first part runs up to the first position where [tok] begins. *)
Lemma split_before_from_shape tok cur s :
  ∃ x y, s = x ++ y ∧
    (∀ j, (j < length x)%nat → startswith tok (drop j s) = false) ∧
    (y = [] ∨ startswith tok y = true) ∧
    Re.split_before_from tok cur s =
      (cur ++ x) :: match y with
                    | [] => []
                    | c :: y' => Re.split_before_from tok [c] y'
                    end.
Proof.
  revert cur. induction s as [|c s IH]; intros cur.
  - exists [], []. simpl. rewrite app_nil_r. split_and!; auto. intros; lia.
  - simpl. destruct (startswith tok (c :: s)) eqn:Hc.
    + exists [], (c :: s). rewrite app_nil_r. split_and!; auto.
      simpl. intros; lia.
    + destruct (IH (cur ++ [c])) as (x & y & -> & Hno & Hy & Heq).
      exists (c :: x), y. split_and!; auto.
      * intros [|j] Hj; [done|]. simpl in *. apply Hno. lia.
      * by rewrite Heq, <- app_assoc.
Qed.

Lemma overlap_free_spec tok s j :
  overlap_free tok = true → startswith tok s = true →
  (1 ≤ j < length tok)%nat → startswith tok (drop j s) = false.
Proof.
  intros Hfree [r ->]%startswith_spec Hj.
  destruct (startswith tok (drop j (tok ++ r))) eqn:Hocc; [|done].
  exfalso. unfold overlap_free in Hfree.
  rewrite forallb_forall in Hfree. specialize (Hfree j).
  rewrite negb_true_iff in Hfree.
  assert (startswith (drop j tok) tok = true) as Hpre; [|rewrite Hfree in Hpre].
  - apply startswith_spec in Hocc as [r' Hr'].
    rewrite drop_app_le in Hr' by lia.
    assert (drop j tok = take (length tok - j) tok) as Hd.
    { apply (f_equal (take (length tok - j))) in Hr'.
      rewrite (take_app_le tok) in Hr' by lia.
      rewrite (take_app_le (drop j tok)) in Hr' by (rewrite length_drop; lia).
      by rewrite take_ge in Hr' by (rewrite length_drop; lia). }
    apply startswith_spec. exists (drop (length tok - j) tok).
    by rewrite Hd, take_drop.
  - done.
  - apply in_seq. lia.
Qed.

(** Every part after the first begins with [tok] and holds no other
    occurrence of it. *)
Lemma split_before_from_rest tok c s :
  tok ≠ [] → overlap_free tok = true → startswith tok (c :: s) = true →
  Forall (fun p => startswith tok p = true ∧ contains tok (drop 1 p) = false)
         (Re.split_before_from tok [c] s).
Proof.
  intros Htok Hfree. remember (length s) as n eqn:Hn. revert c s Hn.
  induction n as [n IH] using lt_wf_ind. intros c s -> Hstart.
  destruct (split_before_from_shape tok [c] s) as (x & y & -> & Hno & Hy & ->).
  assert (contains tok x = false) as Hx.
  { apply contains_false. intros j.
    destruct (decide (j < length x)%nat) as [Hj|Hj].
    - specialize (Hno j Hj). rewrite drop_app_le in Hno by lia.
      destruct (startswith tok (drop j x)) eqn:Hd; [|done].
      by rewrite (startswith_app_l _ _ y Hd) in Hno.
    - rewrite drop_ge by lia. by apply startswith_nil. }
  assert (startswith tok ([c] ++ x) = true) as Hcx.
  { destruct (decide (length tok ≤ length ([c] ++ x))%nat) as [Hlen|Hlen].
    - apply startswith_spec in Hstart as [r Hr].
      apply startswith_spec. exists (drop (length tok) ([c] ++ x)).
      apply (f_equal (take (length tok))) in Hr.
      rewrite take_app_length in Hr.
      change (c :: x ++ y) with (([c] ++ x) ++ y) in Hr.
      rewrite take_app_le in Hr by done.
      rewrite <- (take_drop (length tok) ([c] ++ x)) at 1. by rewrite Hr.
    - destruct Hy as [->|Hy]; [by rewrite app_nil_r in Hstart|].
      pose proof (overlap_free_spec tok (c :: x ++ y) (S (length x)) Hfree Hstart)
        as Hov.
      simpl in Hov, Hlen. rewrite drop_app_length in Hov.
      rewrite Hov in Hy by lia. done. }
  constructor; [by split|].
  destruct y as [|c' y']; [constructor|].
  destruct Hy as [?|Hy]; [done|].
  apply (IH (length y')); [|done|done].
  rewrite length_app. simpl. lia.
Qed.

(** The parts of a text: the first holds no occurrence of [tok], every
    other one begins with [tok] and holds no other occurrence, and put
    together they are the text. *)
Lemma split_before_parts tok s :
  tok ≠ [] → overlap_free tok = true →
  ∃ first rest,
    Re.split_before tok s = first :: rest ∧
    concat (first :: rest) = s ∧
    contains tok first = false ∧
    Forall (fun p => startswith tok p = true ∧ contains tok (drop 1 p) = false) rest.
Proof.
  intros Htok Hfree. unfold Re.split_before.
  pose proof (split_before_from_concat tok [] s) as Hcat.
  destruct (split_before_from_shape tok [] s) as (x & y & -> & Hno & Hy & Heq).
  rewrite Heq in Hcat |- *. eexists _, _. split; [done|]. split; [done|].
  split.
  - apply contains_false. intros j. simpl.
    destruct (decide (j < length x)%nat) as [Hj|Hj].
    + specialize (Hno j Hj). rewrite drop_app_le in Hno by lia.
      destruct (startswith tok (drop j x)) eqn:Hd; [|done].
      by rewrite (startswith_app_l _ _ y Hd) in Hno.
    + rewrite drop_ge by lia. by apply startswith_nil.
  - destruct y as [|c y']; [constructor|].
    destruct Hy as [?|Hy]; [done|].
    by apply split_before_from_rest.
Qed.

Lemma header_marker_overlap_free :
  overlap_free WordPressPoster.header_marker = true.
Proof. by vm_compute. Qed.

Lemma header_marker_nonempty : WordPressPoster.header_marker ≠ [].
Proof. by vm_compute. Qed.

(** A part that begins with the header marker is retained. *)
Lemma retained_of_startswith part :
  startswith WordPressPoster.header_marker part = true →
  WordPressPoster.retained part = true.
Proof.
  intros Hstart. unfold WordPressPoster.retained.
  assert (contains WordPressPoster.header_marker part = true) as ->.
  { apply contains_spec. by exists 0%nat. }
  apply startswith_inv in Hstart. rewrite Hstart.
  change (WordPressPoster.header_marker ++ ?r) with (35 :: (drop 1 WordPressPoster.header_marker ++ r)).
  rewrite strip_nonspace by done.
  rewrite bool_decide_eq_false_2; done.
Qed.

Lemma retained_contains part :
  WordPressPoster.retained part = true →
  contains WordPressPoster.header_marker part = true.
Proof.
  unfold WordPressPoster.retained.
  destruct (contains _ part); [done|]. by rewrite orb_true_r.
Qed.

Lemma filter_retained_all (parts : list str) :
  Forall (fun p => WordPressPoster.retained p = true) parts →
  filter (fun part => Is_true (WordPressPoster.retained part)) parts = parts.
Proof.
  induction 1 as [|p parts Hp _ IH]; [done|].
  rewrite filter_cons_True by by rewrite Hp. by rewrite IH.
Qed.

(** The sections are the parts after the first. *)
Lemma sections_parts text :
  ∃ first rest,
    Re.split_before WordPressPoster.header_marker text = first :: rest ∧
    first ++ concat rest = text ∧
    contains WordPressPoster.header_marker first = false ∧
    Forall (fun p => startswith WordPressPoster.header_marker p = true ∧
                     contains WordPressPoster.header_marker (drop 1 p) = false) rest ∧
    WordPressPoster.sections text = rest.
Proof.
  destruct (split_before_parts _ text header_marker_nonempty header_marker_overlap_free)
    as (first & rest & Hsplit & Hcat & Hfirst & Hrest).
  exists first, rest. split_and!; try done.
  unfold WordPressPoster.sections. rewrite Hsplit.
  rewrite filter_cons_False.
  - apply filter_retained_all. eapply Forall_impl; [exact Hrest|].
    intros p [Hp _]. by apply retained_of_startswith.
  - intros Hret%Is_true_true%retained_contains. congruence.
Qed.

(** ** The title pattern *)

Lemma run_RLit {R} t s g (k : @Re.cont R) :
  Re.run (Re.RLit t) s g k =
    if startswith t s then k (drop (length t) s) g else None.
Proof.
  revert s. induction t as [|a t IH]; intros s; [done|].
  destruct s as [|c s]; [done|]. simpl.
  destruct (a =? c); simpl; [apply IH | done].
Qed.

Lemma first_line_take s : take (length (first_line s)) s = first_line s.
Proof.
  induction s as [|c s IH]; simpl; [done|].
  destruct (c =? NL); simpl; [done | by rewrite IH].
Qed.

Lemma first_line_drop s : s = first_line s ++ drop (length (first_line s)) s.
Proof. rewrite <- (take_drop (length (first_line s)) s) at 1. by rewrite first_line_take. Qed.

Lemma first_line_no_newline s : Forall (fun c => c ≠ NL) (first_line s).
Proof.
  induction s as [|c s IH]; simpl; [constructor|].
  destruct (N.eqb_spec c NL); by constructor.
Qed.

Lemma first_line_rest s :
  drop (length (first_line s)) s = [] ∨
  ∃ r, drop (length (first_line s)) s = NL :: r.
Proof.
  induction s as [|c s IH]; simpl; [by left|].
  destruct (N.eqb_spec c NL) as [->|]; simpl; [right; eauto | done].
Qed.

Lemma first_line_app_newline l r :
  Forall (fun c => c ≠ NL) l → first_line (l ++ NL :: r) = l.
Proof.
  induction 1 as [|c l Hc _ IH]; simpl; [done|].
  apply N.eqb_neq in Hc as ->. by rewrite IH.
Qed.

Lemma first_line_no_newline_id l : Forall (fun c => c ≠ NL) l → first_line l = l.
Proof.
  induction 1 as [|c l Hc _ IH]; simpl; [done|].
  apply N.eqb_neq in Hc as ->. by rewrite IH.
Qed.

(** [.*] before the end of a pattern takes the rest of the line. *)
Lemma rep_greedy_dot_star {R} s g (k : @Re.cont R) :
  (∀ s', is_Some (k s' g)) →
  Re.rep_greedy Re.CDot 0 s g k = k (drop (length (first_line s)) s) g.
Proof.
  intros Hk. induction s as [|c s IH]; simpl; [done|].
  destruct (c =? NL); simpl; [done|]. rewrite IH.
  by destruct (Hk (drop (length (first_line s)) s)) as [r ->].
Qed.

Lemma rep_greedy_dot_plus {R} s g (k : @Re.cont R) :
  (∀ s', is_Some (k s' g)) →
  Re.rep_greedy Re.CDot 1 s g k =
    match s with
    | c :: _ => if c =? NL then None else k (drop (length (first_line s)) s) g
    | [] => None
    end.
Proof.
  intros Hk. destruct s as [|c s]; simpl; [done|].
  destruct (c =? NL); simpl; [done|]. rewrite rep_greedy_dot_star by done.
  by destruct (Hk (drop (length (first_line s)) s)) as [r ->].
Qed.

(** What [title_pattern] matches at the start of a text: the title marker
    and the rest of its line, which must not be empty. *)
Lemma match_title_pattern s :
  Re.match_ WordPressPoster.title_pattern s =
    if startswith WordPressPoster.title_marker s then
      let s1 := drop (length WordPressPoster.title_marker) s in
      match s1 with
      | c :: _ =>
          if c =? NL then None
          else Some {| Re.matched := WordPressPoster.title_marker ++ first_line s1;
                       Re.after := drop (length (first_line s1)) s1;
                       Re.caps := [(1%nat, first_line s1)] |}
      | [] => None
      end
    else None.
Proof.
  unfold Re.match_, WordPressPoster.title_pattern.
  cbn [Re.run]. rewrite run_RLit.
  destruct (startswith WordPressPoster.title_marker s) eqn:Hstart; [|done].
  apply startswith_spec in Hstart as [s1 ->].
  cbn zeta. rewrite drop_app_length.
  rewrite rep_greedy_dot_plus by eauto.
  destruct s1 as [|c s1'] eqn:Hs1; [done|]. rewrite <- Hs1.
  destruct (c =? NL); [done|]. f_equal.
  pose proof (first_line_drop s1) as Hfl.
  assert (length (first_line s1) ≤ length s1)%nat as Hle.
  { rewrite Hfl at 2. rewrite length_app. lia. }
  f_equal.
  - rewrite length_drop, length_app.
    replace (length WordPressPoster.title_marker + length s1 -
             (length s1 - length (first_line s1)))%nat
      with (length WordPressPoster.title_marker + length (first_line s1))%nat by lia.
    by rewrite take_app_add, first_line_take.
  - rewrite length_drop.
    replace (length s1 - (length s1 - length (first_line s1)))%nat
      with (length (first_line s1)) by lia.
    by rewrite first_line_take.
Qed.

(** The title pattern matches at the start of [s] exactly when [s] begins
    with the title marker and a character other than a newline. *)
Lemma match_title_pattern_some s :
  is_Some (Re.match_ WordPressPoster.title_pattern s) ↔
  ∃ c b, s = WordPressPoster.title_marker ++ c :: b ∧ c ≠ NL.
Proof.
  rewrite match_title_pattern. split.
  - destruct (startswith _ s) eqn:Hstart; [|by intros [? ?]].
    apply startswith_inv in Hstart. cbn zeta.
    destruct (drop _ s) as [|c b]; [by intros [? ?]|].
    destruct (N.eqb_spec c NL); [by intros [? ?]|]. intros _. eauto.
  - intros (c & b & -> & Hc). rewrite startswith_app. cbn zeta.
    rewrite drop_app_length. apply N.eqb_neq in Hc as ->. eauto.
Qed.

(** [re.search] finds the first position with a match. *)
Lemma search_from_spec r before s :
  match Re.search_from r before s with
  | Some (b, m) =>
      ∃ j, (j ≤ length s)%nat ∧ b = before ++ take j s ∧
           Re.match_ r (drop j s) = Some m ∧
           ∀ i, (i < j)%nat → Re.match_ r (drop i s) = None
  | None => ∀ i, Re.match_ r (drop i s) = None
  end.
Proof.
  revert before. induction s as [|c s IH]; intros before; simpl.
  - destruct (Re.match_ r []) as [m|] eqn:Hm.
    + exists 0%nat. rewrite app_nil_r. split_and!; auto. intros; lia.
    + intros i. by rewrite drop_nil.
  - destruct (Re.match_ r (c :: s)) as [m|] eqn:Hm.
    + exists 0%nat. simpl. rewrite app_nil_r. split_and!; auto; intros; lia.
    + specialize (IH (before ++ [c])).
      destruct (Re.search_from r (before ++ [c]) s) as [[b m]|].
      * destruct IH as (j & Hj & -> & Hmj & Hmin). exists (S j). simpl.
        rewrite <- app_assoc. split_and!; auto; [lia|].
        intros [|i] Hi; [done|]. apply Hmin. lia.
      * intros [|i]; [done | apply IH].
Qed.

(** ** Replacing *)

Lemma replace_from_skip old new x s :
  replace_from old new (length x) (x ++ s) = replace_from old new 0 s.
Proof.
  induction x as [|c x IH]; simpl; [|done].
  destruct s; done.
Qed.

Lemma replace_from_keep old new pre s :
  (∀ j, (j < length pre)%nat → startswith old (drop j (pre ++ s)) = false) →
  replace_from old new 0 (pre ++ s) = pre ++ replace_from old new 0 s.
Proof.
  induction pre as [|c pre IH]; intros Hno; [done|].
  change ((c :: pre) ++ s) with (c :: (pre ++ s)).
  cbn [replace_from]. pose proof (Hno 0%nat ltac:(simpl; lia)) as H0.
  simpl in H0. rewrite H0.
  simpl. f_equal. apply IH. intros j Hj. apply (Hno (S j)). simpl. lia.
Qed.

Lemma replace_from_hit old new s :
  old ≠ [] →
  replace_from old new 0 (old ++ s) = new ++ replace_from old new 0 s.
Proof.
  intros Hold. destruct old as [|c old]; [done|].
  change ((c :: old) ++ s) with (c :: (old ++ s)).
  cbn [replace_from].
  change (c :: (old ++ s)) with ((c :: old) ++ s). rewrite startswith_app.
  simpl. by rewrite replace_from_skip.
Qed.

(** Removing every ['#']. *)
Lemma replace_hash s : replace (lit "#") [] s = filter (fun c => c ≠ 35) s.
Proof.
  change (replace (lit "#") [] s) with (replace_from [35] [] 0 s).
  induction s as [|c s IH]; [done|].
  cbn [replace_from startswith]. rewrite andb_true_r.
  destruct (N.eqb_spec 35 c) as [<-|Hc].
  - rewrite filter_cons_False by naive_solver. destruct s; apply IH.
  - rewrite filter_cons_True by naive_solver. by rewrite IH.
Qed.

Lemma replace_nonempty old new s :
  old ≠ [] → replace old new s = replace_from old new 0 s.
Proof. by destruct old. Qed.

(** More on whitespace at the ends. *)

Lemma lstrip_decompose s : ∃ ws, s = ws ++ lstrip s ∧ forallb isspace ws = true.
Proof.
  induction s as [|c s (ws & Hs & Hws)]; [by exists []|]. simpl.
  destruct (isspace c) eqn:Hc.
  - exists (c :: ws). simpl. rewrite Hc, Hws. split; [by f_equal | done].
  - by exists [].
Qed.

Lemma rstrip_decompose s : ∃ ws, s = rstrip s ++ ws ∧ forallb isspace ws = true.
Proof.
  destruct (lstrip_decompose (reverse s)) as (ws & Hs & Hws).
  exists (reverse ws). split; [|by rewrite forallb_reverse].
  unfold rstrip. rewrite <- reverse_app, <- Hs. by rewrite reverse_involutive.
Qed.

Lemma strip_app_space s ws : forallb isspace ws = true → strip (s ++ ws) = strip s.
Proof.
  intros Hws. unfold strip. destruct (forallb isspace s) eqn:Hs.
  - rewrite !lstrip_all_space; [done..|]. by rewrite forallb_app, Hs, Hws.
  - rewrite lstrip_app_keep by done. by apply rstrip_app_space.
Qed.

Lemma forallb_filter (f : char → bool) (P : char → Prop) `{∀ c, Decision (P c)} s :
  forallb f s = true → forallb f (filter P s) = true.
Proof.
  induction s as [|c s IH]; [done|]. simpl.
  intros [Hc Hs]%andb_true_iff. rewrite filter_cons.
  destruct (decide (P c)); simpl; rewrite ?Hc; auto.
Qed.

(** The first line of a text that begins with a character other than
    whitespace, before and after stripping the text: once every ['#'] is
    removed and the ends are stripped, they are the same. *)
Lemma strip_first_line c s :
  isspace c = false →
  strip (filter (fun d => d ≠ 35) (first_line (strip (c :: s)))) =
  strip (filter (fun d => d ≠ 35) (first_line (c :: s))).
Proof.
  intros Hc.
  assert (strip (c :: s) = rstrip (c :: s)) as ->.
  { unfold strip. by rewrite lstrip_nonspace. }
  pose proof (first_line_drop (c :: s)) as Hsplit.
  pose proof (first_line_no_newline (c :: s)) as Hnl.
  set (l1 := first_line (c :: s)) in *.
  set (rest := drop (length l1) (c :: s)) in *.
  rewrite Hsplit. destruct (forallb isspace rest) eqn:Hrest.
  - rewrite rstrip_app_space by done.
    destruct (rstrip_decompose l1) as (ws & Hl1 & Hws).
    assert (Forall (fun d => d ≠ NL) (rstrip l1)) as Hnl'.
    { rewrite Hl1 in Hnl. by apply Forall_app in Hnl as [? _]. }
    rewrite first_line_no_newline_id by done.
    rewrite Hl1 at 2. rewrite filter_app.
    by rewrite strip_app_space by by apply forallb_filter.
  - rewrite rstrip_app_keep by done.
    destruct (first_line_rest (c :: s)) as [Hr|[r Hr]]; fold l1 rest in Hr.
    + by rewrite Hr in Hrest.
    + rewrite Hr in Hrest |- *. simpl in Hrest.
      change (NL :: r) with ([NL] ++ r). rewrite rstrip_app_keep by done.
      simpl. by rewrite first_line_app_newline.
Qed.

(** ** WordPressPoster: titles *)

Lemma title_here_spec s :
  title_here s = true ↔
  ∃ c b, s = WordPressPoster.title_marker ++ c :: b ∧ c ≠ NL.
Proof.
  unfold title_here. rewrite andb_true_iff. split.
  - intros [Hstart Hc]. apply startswith_inv in Hstart.
    destruct (drop _ s) as [|c b]; [done|].
    exists c, b. split; [done|]. by apply negb_true_iff, N.eqb_neq in Hc.
  - intros (c & b & -> & Hc). rewrite startswith_app, drop_app_length.
    split; [done|]. by apply negb_true_iff, N.eqb_neq.
Qed.

Lemma has_title_spec part :
  has_title part = true ↔
  ∃ a c b, part = a ++ WordPressPoster.title_marker ++ c :: b ∧ c ≠ NL.
Proof.
  induction part as [|d part IH].
  - split; [by vm_compute|].
    intros (a & c & b & H & Hc). symmetry in H.
    apply app_eq_nil in H as [_ H]. by apply app_eq_nil in H as [_ H].
  - cbn [has_title]. rewrite orb_true_iff, IH, title_here_spec. split.
    + intros [(c & b & H & Hc)|(a & c & b & -> & Hc)].
      * by exists [], c, b.
      * by exists (d :: a), c, b.
    + intros ([|d' a] & c & b & H & Hc).
      * left. by exists c, b.
      * right. injection H as -> ->. by exists a, c, b.
Qed.

Lemma title_and_body_found part :
  has_title part = true →
  ∃ pre rest post,
    part = pre ++ WordPressPoster.title_marker ++ rest ++ post ∧
    rest ≠ [] ∧ Forall (fun c => c ≠ NL) rest ∧
    (post = [] ∨ ∃ r, post = NL :: r) ∧
    (∀ a c b, part = a ++ WordPressPoster.title_marker ++ c :: b → c ≠ NL →
              (length pre ≤ length a)%nat) ∧
    WordPressPoster.title_and_body part =
      (strip rest,
       pre ++ replace (WordPressPoster.title_marker ++ rest) [] post).
Proof.
  intros (a & c & b & Hpart & Hc)%has_title_spec.
  unfold WordPressPoster.title_and_body, Re.search.
  pose proof (search_from_spec WordPressPoster.title_pattern [] part) as Hsearch.
  destruct (Re.search_from _ [] part) as [[bef m]|]; cycle 1.
  { specialize (Hsearch (length a)). rewrite Hpart, drop_app_length in Hsearch.
    assert (is_Some (Re.match_ WordPressPoster.title_pattern
                       (WordPressPoster.title_marker ++ c :: b))) as [? Hm]
      by (apply match_title_pattern_some; eauto).
    congruence. }
  destruct Hsearch as (j & Hj & _ & Hm & Hmin).
  rewrite match_title_pattern in Hm.
  destruct (startswith _ (drop j part)) eqn:Hstart; [|done].
  apply startswith_spec in Hstart as [s1 Hs1].
  rewrite Hs1 in Hm. cbn zeta in Hm. rewrite drop_app_length in Hm.
  destruct s1 as [|c1 s1'] eqn:Es1; [done|]. rewrite <- Es1 in *.
  destruct (N.eqb_spec c1 NL) as [|Hc1]; [done|].
  injection Hm as <-.
  assert (∀ i, (i < j)%nat → ∀ c' b',
            drop i part = WordPressPoster.title_marker ++ c' :: b' → c' = NL)
    as Hnone.
  { intros i Hi c' b' Hd. destruct (decide (c' = NL)) as [|Hc']; [done|].
    assert (is_Some (Re.match_ WordPressPoster.title_pattern (drop i part)))
      as [? Hsome] by (apply match_title_pattern_some; eauto).
    rewrite Hmin in Hsome by done. done. }
  assert (first_line s1 ≠ []) as Hne.
  { rewrite Es1. simpl. by apply N.eqb_neq in Hc1 as ->. }
  exists (take j part), (first_line s1), (drop (length (first_line s1)) s1).
  assert (part = take j part ++ WordPressPoster.title_marker ++
                 first_line s1 ++ drop (length (first_line s1)) s1) as Hdec.
  { rewrite <- first_line_drop, <- Hs1. by rewrite take_drop. }
  split_and!; try done.
  - apply first_line_no_newline.
  - apply first_line_rest.
  - intros a' c' b' Hpart' Hc'. rewrite length_take.
    destruct (decide (length a' < j)%nat) as [Hlt|]; [|lia].
    exfalso. apply Hc'. apply (Hnone (length a') Hlt c' b').
    by rewrite Hpart', drop_app_length.
  - cbn [Re.caps Re.matched Re.group Nat.eqb default]. f_equal.
    assert (WordPressPoster.title_marker ++ first_line s1 ≠ []) as HG
      by (intros [_ ?]%app_eq_nil; done).
    rewrite replace_nonempty by done. rewrite Hdec at 1.
    rewrite replace_from_keep.
    + rewrite (app_assoc WordPressPoster.title_marker), replace_from_hit by done.
      by rewrite replace_nonempty.
    + intros i Hi. rewrite length_take in Hi.
      rewrite <- Hdec.
      destruct (startswith _ (drop i part)) eqn:Hocc; [|done].
      apply startswith_spec in Hocc as [r Hr].
      destruct (first_line s1) as [|c2 l2] eqn:Hfl; [done|].
      pose proof (first_line_no_newline s1) as Hnl. rewrite Hfl in Hnl.
      apply Forall_cons in Hnl as [Hc2 _]. exfalso. apply Hc2.
      apply (Hnone i ltac:(lia) c2 (l2 ++ r)).
      exact Hr.
Qed.

Lemma title_and_body_fallback part :
  has_title part = false →
  WordPressPoster.title_and_body part =
    (strip (filter (fun c => c ≠ 35) (first_line (strip part))), part).
Proof.
  intros Hno. unfold WordPressPoster.title_and_body, Re.search.
  pose proof (search_from_spec WordPressPoster.title_pattern [] part) as Hsearch.
  destruct (Re.search_from _ [] part) as [[bef m]|].
  - destruct Hsearch as (j & Hj & _ & Hm & _).
    assert (is_Some (Re.match_ WordPressPoster.title_pattern (drop j part)))
      as (c & b & Hd & Hc)%match_title_pattern_some by eauto.
    assert (has_title part = true); [|congruence].
    apply has_title_spec.
    exists (take j part), c, b. split; [|done]. by rewrite <- Hd, take_drop.
  - by rewrite replace_hash.
Qed.

(** ** WordPressPoster: the claims on sections and titles *)

Section SplitFacts.

Variable markdown : str → str.

(** C4, as the code has it: the text is cut at every position where the
    header marker begins, in the middle of a line as well as at its start,
    each marker staying with the part that follows it; the first part (what
    comes before the first marker) holds no marker and is dropped, every
    other part begins with the marker, holds no other marker, is not blank
    and becomes an article: the articles are those parts, in order. *)
Theorem split_at_every_marker text :
  ∃ first rest,
    Re.split_before WordPressPoster.header_marker text = first :: rest ∧
    first ++ concat rest = text ∧
    contains WordPressPoster.header_marker first = false ∧
    Forall (fun p => startswith WordPressPoster.header_marker p = true ∧
                     contains WordPressPoster.header_marker (drop 1 p) = false ∧
                     WordPressPoster.retained p = true) rest ∧
    WordPressPoster.retained first = false ∧
    WordPressPoster.split_articles markdown text =
      WordPressPoster.make_article markdown <$> rest.
Proof.
  destruct (sections_parts text) as (first & rest & Hsplit & Hcat & Hfirst & Hrest & Hsec).
  exists first, rest. split_and!; try done.
  - eapply Forall_impl; [exact Hrest|]. intros p [Hp Hp'].
    split_and!; try done. by apply retained_of_startswith.
  - unfold WordPressPoster.retained. rewrite Hfirst. by rewrite orb_true_r.
  - unfold WordPressPoster.split_articles. by rewrite Hsec.
Qed.

(** C5, as the code has it: when the title marker is followed on its line
    by at least one character, the section reads [pre], the marker, the
    rest [rest] of that line, and [post], where this is the first such
    place; the title is [rest] stripped, and the body handed to the
    renderer is [pre] followed by [post] with every further occurrence of
    the marker-and-[rest] text deleted: what stands before the marker on
    its line, and the end of the line, stay. *)
Theorem title_from_first_marker part :
  has_title part = true →
  ∃ pre rest post,
    part = pre ++ WordPressPoster.title_marker ++ rest ++ post ∧
    rest ≠ [] ∧ Forall (fun c => c ≠ NL) rest ∧
    (post = [] ∨ ∃ r, post = NL :: r) ∧
    (∀ a c b, part = a ++ WordPressPoster.title_marker ++ c :: b → c ≠ NL →
              (length pre ≤ length a)%nat) ∧
    WordPressPoster.make_article markdown part =
      WordPressPoster.Article (strip rest)
        (markdown (pre ++ replace (WordPressPoster.title_marker ++ rest) [] post)).
Proof.
  intros Htitle.
  destruct (title_and_body_found part Htitle)
    as (pre & rest & post & Hpart & Hrest & Hnl & Hpost & Hmin & Htb).
  exists pre, rest, post. split_and!; try done.
  unfold WordPressPoster.make_article. by rewrite Htb.
Qed.

(** C6, as the code has it: a section that begins with the header marker
    (as every retained section does) and has no title marker followed by a
    character on its line gets as title its first line with every ['#']
    removed, the leading ones and the others, and the ends stripped; its
    body is the whole section. *)
Theorem title_from_first_line part :
  startswith WordPressPoster.header_marker part = true →
  has_title part = false →
  WordPressPoster.make_article markdown part =
    WordPressPoster.Article
      (strip (filter (fun c => c ≠ 35) (first_line part)))
      (markdown part).
Proof.
  intros Hstart Hno. unfold WordPressPoster.make_article.
  rewrite (title_and_body_fallback part Hno). f_equal.
  apply startswith_inv in Hstart. rewrite Hstart.
  change (WordPressPoster.header_marker ++ ?r)
    with (35 :: (drop 1 WordPressPoster.header_marker ++ r)).
  by apply strip_first_line.
Qed.

End SplitFacts.

(** C4 as it is worded fails: a header marker in the middle of a line cuts
    the text too, so the section the code keeps is not the one that a cut
    at line starts gives. *)
Lemma sections_not_cut_at_line_starts :
  WordPressPoster.sections Sample.midline_text = [Sample.vol "1" ++ lit " below"] ∧
  Claimed.sections Sample.midline_text = [Sample.midline_text] ∧
  WordPressPoster.sections Sample.midline_text ≠ Claimed.sections Sample.midline_text.
Proof. by vm_compute. Qed.

(** C5 as it is worded fails: a title-marker line with nothing after the
    marker gives no title (the title falls back to the first line) and
    stays in the body. *)
Lemma bare_title_line_kept :
  Claimed.title_line Sample.bare_title_section = Some WordPressPoster.title_marker ∧
  (WordPressPoster.title_and_body Sample.bare_title_section).1
    ≠ Claimed.title_of_line WordPressPoster.title_marker ∧
  WordPressPoster.title_and_body Sample.bare_title_section
    = ([35352; 20107] ++ lit "Vol1", Sample.bare_title_section).
Proof. by vm_compute. Qed.

(** Text before the title marker on its line stays in the body. *)
Lemma indented_title_line_kept :
  WordPressPoster.title_and_body Sample.indented_title_section
    = (lit "Pioneers",
       Sample.vol "1" ++ [NL] ++ lit "> " ++ [NL] ++ lit "Body" ++ [NL]).
Proof. by vm_compute. Qed.

(** C6 as it is worded fails: a ['#'] inside the first line is removed
    too, not only the leading ones. *)
Lemma inner_hash_removed :
  Re.search WordPressPoster.title_pattern Sample.hash_section = None ∧
  (WordPressPoster.title_and_body Sample.hash_section).1
    = [35352; 20107] ++ lit "Vol1: C notes" ∧
  Claimed.fallback_title Sample.hash_section
    = [35352; 20107] ++ lit "Vol1: C# notes" ∧
  (WordPressPoster.title_and_body Sample.hash_section).1
    ≠ Claimed.fallback_title Sample.hash_section.
Proof. by vm_compute. Qed.

Lemma title_from_first_marker_witness :
  ∃ pre rest post,
    Sample.titled_section = pre ++ WordPressPoster.title_marker ++ rest ++ post ∧
    rest ≠ [] ∧ Forall (fun c => c ≠ NL) rest ∧
    (post = [] ∨ ∃ r, post = NL :: r) ∧
    (∀ a c b, Sample.titled_section = a ++ WordPressPoster.title_marker ++ c :: b →
              c ≠ NL → (length pre ≤ length a)%nat) ∧
    WordPressPoster.make_article Sample.render Sample.titled_section =
      WordPressPoster.Article (strip rest)
        (Sample.render (pre ++ replace (WordPressPoster.title_marker ++ rest) [] post)).
Proof.
  apply (title_from_first_marker Sample.render Sample.titled_section).
  by vm_compute.
Defined.

Lemma title_from_first_line_witness :
  WordPressPoster.make_article Sample.render Sample.hash_section =
    WordPressPoster.Article
      (strip (filter (fun c => c ≠ 35) (first_line Sample.hash_section)))
      (Sample.render Sample.hash_section).
Proof.
  apply (title_from_first_line Sample.render Sample.hash_section);
    by vm_compute.
Defined.

(** ** WordPressPoster: publishing *)

Lemma submissions_app evs evs' :
  submissions (evs ++ evs') = submissions evs ++ submissions evs'.
Proof. induction evs as [|[]]; simpl; by rewrite ?IHevs. Qed.

Lemma submissions_prints ls : submissions (Print <$> ls) = [].
Proof. by induction ls. Qed.

Lemma submissions_simulated site (articles : list WordPressPoster.article) :
  submissions (concat (simulated_post site <$> articles)) = [].
Proof. induction articles as [|a l IH]; [done|]. exact IH. Qed.

Section PublishFacts.

Variable markdown : str → str.
Variable wordpress : list event → str → str → str → submission.

Abbreviation post_article := (WordPressPoster.post_article wordpress).
Abbreviation post_all := (WordPressPoster.post_all wordpress).
Abbreviation process := (WordPressPoster.process markdown wordpress).

Lemma post_all_cons self a articles w :
  post_all self (a :: articles) w = post_all self articles (post_article self a w).
Proof. done. Qed.

Lemma post_all_app self l l' w :
  post_all self (l ++ l') w = post_all self l' (post_all self l w).
Proof. apply foldl_app. Qed.

(** In dry-run mode an article is only logged. *)
Lemma post_article_dry self a w :
  WordPressPoster.dry_run self = true →
  post_article self a w = emits (simulated_post (WordPressPoster.wp_site self) a) w.
Proof.
  intros Hdry. unfold WordPressPoster.post_article. rewrite Hdry.
  by rewrite !print_emits, !emits_emits.
Qed.

Lemma post_all_dry self articles w :
  WordPressPoster.dry_run self = true →
  post_all self articles w =
    emits (concat (simulated_post (WordPressPoster.wp_site self) <$> articles)) w.
Proof.
  intros Hdry. revert w. induction articles as [|a articles IH]; intros w.
  - by rewrite emits_nil.
  - rewrite post_all_cons, IH, post_article_dry by done.
    by rewrite emits_emits.
Qed.

(** Out of dry-run mode an article is submitted, whatever comes of it. *)
Lemma post_article_live self a w :
  WordPressPoster.dry_run self = false →
  ∃ ls, post_article self a w = emits (submission_of self a :: (Print <$> ls)) w ∧
        ∀ e t, wordpress (trace w) (WordPressPoster.endpoint self)
                 (WordPressPoster.title a) (WordPressPoster.content a) = Failed e t →
               lit "Failed to post " ++ WordPressPoster.title a ++ lit ": " ++ e ∈ ls.
Proof.
  intros Hlive. unfold WordPressPoster.post_article. rewrite Hlive.
  destruct (wordpress _ _ _ _) as [id|e [t|]].
  - eexists [_]. rewrite print_emits, emit_emits, emits_emits. split; [done|].
    intros; done.
  - eexists [_; _]. rewrite !print_emits, emit_emits, !emits_emits.
    split; [done|]. intros e' t' [= <- <-]. apply list_elem_of_here.
  - eexists [_]. rewrite !print_emits, emit_emits, !emits_emits.
    split; [done|]. intros e' t' [= <- <-]. apply list_elem_of_here.
Qed.

Lemma post_all_trace self articles w :
  ∃ evs, trace (post_all self articles w) = trace w ++ evs.
Proof.
  revert w. induction articles as [|a articles IH]; intros w.
  - exists []. by rewrite app_nil_r.
  - rewrite post_all_cons. destruct (IH (post_article self a w)) as [evs ->].
    assert (∃ evs', trace (post_article self a w) = trace w ++ evs') as [evs' ->].
    { unfold WordPressPoster.post_article.
      destruct (WordPressPoster.dry_run self); [by eexists [_; _; _]; simpl; rewrite <- !app_assoc|].
      destruct (wordpress _ _ _ _) as [id|e [t|]]; simpl;
        rewrite <- ?app_assoc; eauto. }
    rewrite <- app_assoc. eauto.
Qed.

Lemma post_all_live_submissions self articles w :
  WordPressPoster.dry_run self = false →
  submissions (trace (post_all self articles w)) =
    submissions (trace w) ++ (submission_of self <$> articles).
Proof.
  intros Hlive. revert w. induction articles as [|a articles IH]; intros w.
  - simpl. by rewrite app_nil_r.
  - rewrite post_all_cons, IH.
    destruct (post_article_live self a w Hlive) as (ls & -> & _).
    unfold emits; simpl. rewrite submissions_app. simpl.
    rewrite submissions_prints. by rewrite <- app_assoc.
Qed.

(** C8: out of dry-run mode, every article of the list is submitted, in
    the order of the list, whatever the earlier submissions came to; and a
    submission that fails leaves its failure in the log. *)
Theorem failure_does_not_stop_batch self articles w :
  WordPressPoster.dry_run self = false →
  submissions (trace (post_all self articles w)) =
    submissions (trace w) ++ (submission_of self <$> articles) ∧
  ∀ i a e t,
    articles !! i = Some a →
    wordpress (trace (post_all self (take i articles) w))
      (WordPressPoster.endpoint self) (WordPressPoster.title a)
      (WordPressPoster.content a) = Failed e t →
    Print (lit "Failed to post " ++ WordPressPoster.title a ++ lit ": " ++ e)
      ∈ trace (post_all self articles w).
Proof.
  intros Hlive. split; [by apply post_all_live_submissions|].
  intros i a e t Hi Hfail.
  pose proof (take_drop_middle articles i a Hi) as Hsplit.
  remember (take i articles) as before eqn:Hbefore.
  remember (drop (S i) articles) as later eqn:Hlater.
  rewrite <- Hsplit, post_all_app, post_all_cons.
  destruct (post_all_trace self later
              (post_article self a (post_all self before w))) as [evs ->].
  destruct (post_article_live self a (post_all self before w) Hlive)
    as (ls & -> & Hlog).
  specialize (Hlog e t Hfail). unfold emits; simpl.
  apply elem_of_app. left. apply elem_of_app. right.
  apply elem_of_cons. right. by apply list_elem_of_fmap_2.
Qed.

(** A poster in dry-run mode submits nothing and leaves the files alone. *)
Lemma process_dry self w :
  WordPressPoster.dry_run self = true →
  submissions (trace (process self w)) = submissions (trace w) ∧
  files (process self w) = files w.
Proof.
  intros Hdry. unfold WordPressPoster.process.
  destruct (read_text _ w) as [text|].
  - rewrite post_all_dry by done. rewrite !print_emits, !emits_emits.
    unfold emits; cbn [trace files]. split; [|done].
    rewrite !submissions_app, submissions_simulated. simpl.
    by rewrite app_nil_r.
  - rewrite print_emits. unfold emits; cbn [trace files]. split; [|done].
    rewrite submissions_app. simpl. by rewrite app_nil_r.
Qed.

(** What [__main__] does before it reads the document, in dry-run mode:
    it builds a poster in dry-run mode and logs at most two notes. *)
Lemma main_poster_dry argv w :
  dry_run_mode argv w →
  ∃ notes dry w1,
    main_dry_run argv w = (dry, w1) ∧
    WordPressPoster.init document dry w1 =
      (WordPressPoster.Poster document true
         (getenv WordPressPoster.WP_USER w)
         (getenv WordPressPoster.WP_APP_PASSWORD w)
         (getenv WordPressPoster.WP_SITE_URL w),
       emits (Print <$> notes) w).
Proof.
  intros Hmode. unfold main_dry_run.
  case_bool_decide as Hsite.
  - eexists [_], _, _. split; [done|].
    unfold WordPressPoster.init. by rewrite print_emits.
  - destruct (decide (lit "--dry-run" ∈ argv)) as [Hflag|Hflag].
    + eexists [], _, _. split; [done|].
      rewrite bool_decide_eq_true_2 by done.
      unfold WordPressPoster.init. simpl. by rewrite emits_nil.
    + eexists [_], _, _. split; [done|].
      rewrite bool_decide_eq_false_2 by done.
      unfold WordPressPoster.init.
      destruct Hmode as [?|[H|[H|[H|?]]]]; try done; rewrite H;
        rewrite ?andb_false_r; simpl; by rewrite print_emits.
Qed.

(** C7: in dry-run mode (the flag, or a credential missing or empty, or
    the placeholder site) publishing submits nothing: after at most two
    notes about the mode, the log gets the count of articles, then for
    each article of the document, in order, the three lines of its
    simulated post (title, endpoint, first hundred characters of the
    content), then the closing line; the files are left as they were. *)
Theorem dry_run_submits_nothing argv w :
  dry_run_mode argv w →
  let w' := main_publish markdown wordpress argv w in
  submissions (trace w') = submissions (trace w) ∧
  files w' = files w ∧
  ∃ notes,
    trace w' = trace w ++ (Print <$> notes) ++
      match read_text document w with
      | None => [Print (lit "File not found: " ++ document)]
      | Some text =>
          let articles := WordPressPoster.split_articles markdown text in
          Print (lit "Phase 2: Found " ++ str_of_nat (length articles) ++
                 lit " articles. Starting upload...")
          :: concat (simulated_post (getenv WordPressPoster.WP_SITE_URL w) <$> articles)
          ++ [Print (lit "Phase 2: Complete.")]
      end.
Proof.
  intros Hmode w'.
  destruct (main_poster_dry argv w Hmode) as (notes & dry & w1 & Hdry & Hinit).
  subst w'. unfold main_publish. rewrite Hdry, Hinit.
  unfold WordPressPoster.process. cbn [WordPressPoster.filepath].
  change (read_text document (emits (Print <$> notes) w))
    with (read_text document w).
  destruct (read_text document w) as [text|].
  - rewrite post_all_dry by done. rewrite !print_emits, !emits_emits.
    cbn [WordPressPoster.wp_site]. unfold emits; cbn [trace files].
    split; [|split; [done|]].
    + rewrite !submissions_app, submissions_prints, submissions_simulated.
      simpl. by rewrite app_nil_r.
    + by exists notes.
  - rewrite print_emits, emits_emits. unfold emits; cbn [trace files].
    split; [|split; [done|]].
    + rewrite !submissions_app, submissions_prints. simpl. by rewrite app_nil_r.
    + by exists notes.
Qed.

End PublishFacts.

Section MissingFile.

Variable wikimedia : str → attempt (option str).
Variable google_books : str → attempt (option str).
Variable markdown : str → str.
Variable wordpress : list event → str → str → str → submission.

(** C9: for a path that does not exist, the enricher and the publisher
    each log that the file was not found and do nothing else: the files
    are as before, no image source is asked and nothing is submitted,
    really or in simulation. *)
Theorem missing_file_is_noop path self w :
  files w !! path = None →
  WordPressPoster.filepath self = path →
  let w' := print (lit "File not found: " ++ path) w in
  ImageFetcher.process_file wikimedia google_books path w = Ok w' ∧
  WordPressPoster.process markdown wordpress self w = w' ∧
  files w' = files w ∧
  trace w' = trace w ++ [Print (lit "File not found: " ++ path)] ∧
  queries (trace w') = queries (trace w) ∧
  submissions (trace w') = submissions (trace w).
Proof.
  intros Hmissing Hpath w'.
  unfold ImageFetcher.process_file, WordPressPoster.process, read_text.
  rewrite Hpath, Hmissing. subst w'. split_and!; try done.
  - unfold print, emit; simpl. rewrite queries_app. simpl. by rewrite app_nil_r.
  - unfold print, emit; simpl. rewrite submissions_app. simpl. by rewrite app_nil_r.
Qed.

End MissingFile.

(** Witnesses on the sample data. *)

Lemma dry_run_submits_nothing_witness :
  submissions (trace (main_publish Sample.render Sample.rejects Sample.argv
                        Sample.unconfigured)) = [].
Proof.
  refine (proj1 (dry_run_submits_nothing Sample.render Sample.rejects
                   Sample.argv Sample.unconfigured _)).
  right; left. by vm_compute.
Defined.

Lemma failure_does_not_stop_batch_witness :
  submissions (trace (WordPressPoster.post_all Sample.rejects Sample.live_poster
                        Sample.two_articles Sample.empty_world)) =
    submission_of Sample.live_poster <$> Sample.two_articles.
Proof.
  refine (proj1 (failure_does_not_stop_batch Sample.rejects Sample.live_poster
                   Sample.two_articles Sample.empty_world _)).
  by vm_compute.
Defined.

Lemma missing_file_is_noop_witness :
  ImageFetcher.process_file Sample.finds Sample.finds_cover Sample.path
    Sample.empty_world
  = Ok (print (lit "File not found: " ++ Sample.path) Sample.empty_world).
Proof.
  refine (proj1 (missing_file_is_noop Sample.finds Sample.finds_cover
                   Sample.render Sample.rejects Sample.path Sample.live_poster
                   Sample.empty_world _ _)); by vm_compute.
Defined.

(** ** ImageFetcher: a second pass *)

Lemma image_reference_link jp en url :
  ImageFetcher.image_reference jp en url = image_link jp en url ++ [NL; NL].
Proof.
  unfold ImageFetcher.image_reference, image_link. by rewrite <- !app_assoc.
Qed.

Lemma image_link_forall (P : char → Prop) jp en url :
  Forall P (lit "![)]( ") → Forall P jp → Forall P en → Forall P url →
  Forall P (image_link jp en url).
Proof.
  intros Hlit Hjp Hen Hurl. unfold image_link.
  change (lit "![)]( ") with [33; 91; 41; 93; 40; 32] in Hlit.
  change (lit "![") with [33; 91]. change (lit " (") with [32; 40].
  change (lit ")](") with [41; 93; 40]. change (lit ")") with [41].
  repeat match goal with
  | H : Forall _ (_ :: _) |- _ => apply Forall_cons in H as [? H]
  end.
  repeat apply Forall_app_2; try done; repeat constructor; try done.
Qed.

(** The first line of a reference, read back, is an image line and not a
    marker line; nor is an empty line a marker line. *)
Lemma image_link_is_image jp en url :
  ImageFetcher.is_image_line (image_link jp en url ++ [NL]) = true.
Proof.
  unfold ImageFetcher.is_image_line, image_link.
  change (lit "![" ++ ?r) with (33 :: 91 :: r). cbn [app].
  by rewrite strip_nonspace, rstrip_nonspace.
Qed.

Lemma image_link_no_marker jp en url :
  ImageFetcher.pattern_match (image_link jp en url ++ [NL]) = None.
Proof. done. Qed.

Lemma empty_line_no_marker : ImageFetcher.pattern_match [NL] = None.
Proof. done. Qed.

Section SecondPass.

Variable wikimedia : str → attempt (option str).
Variable google_books : str → attempt (option str).

Abbreviation scan2 := (ImageFetcher.scan wikimedia google_books).
Abbreviation after_line2 := (ImageFetcher.after_line wikimedia google_books).
Abbreviation image_for2 := (ImageFetcher.image_for wikimedia google_books).

(** What a turn of the loop inserts: nothing, or one reference made of the
    names of the line and a URL of the sources. *)
Lemma after_line_inserts l next :
  (after_line2 l next).1 = [] ∨
  ∃ jp en url, ImageFetcher.pattern_match l = Some (jp, en) ∧
               image_for2 en = Some url ∧
               (after_line2 l next).1 = [ImageFetcher.image_reference jp en url].
Proof.
  unfold ImageFetcher.after_line.
  destruct (ImageFetcher.pattern_match l) as [[jp en]|] eqn:Hm; [|by left].
  assert ((ImageFetcher.reference_lines wikimedia google_books jp en) = [] ∨
          ∃ url, image_for2 en = Some url ∧
                 ImageFetcher.reference_lines wikimedia google_books jp en =
                   [ImageFetcher.image_reference jp en url]) as Href.
  { unfold ImageFetcher.reference_lines.
    destruct (image_for2 en) as [[|c u]|]; eauto. }
  destruct next as [n|]; [destruct (ImageFetcher.is_image_line n); [by left|]|];
    (destruct Href as [->|(url & Hurl & ->)]; [by left | right; eauto 10]).
Qed.

Lemma after_line_no_marker l next :
  ImageFetcher.pattern_match l = None → after_line2 l next = ([], []).
Proof. intros Hm. unfold ImageFetcher.after_line. by rewrite Hm. Qed.

Lemma after_line_image l n :
  ImageFetcher.is_image_line n = true → (after_line2 l (Some n)).1 = [].
Proof.
  intros Hn. unfold ImageFetcher.after_line. rewrite Hn.
  by destruct (ImageFetcher.pattern_match l) as [[jp en]|].
Qed.

(** A property of the lines and of the references holds for all that a
    pass writes. *)
Lemma scan_forall (P : str → Prop) lines eof :
  Forall P lines →
  (∀ jp en url l, l ∈ lines → ImageFetcher.pattern_match l = Some (jp, en) →
                  image_for2 en = Some url →
                  P (ImageFetcher.image_reference jp en url)) →
  Forall P (scan2 lines eof).1.
Proof.
  induction lines as [|l rest IH]; intros Hlines Href; [constructor|].
  rewrite scan_cons. cbn [fst]. apply Forall_cons in Hlines as [Hl Hrest].
  constructor; [done|]. apply Forall_app. split.
  - destruct (after_line_inserts l (match rest with [] => eof | n :: _ => Some n end))
      as [->|(jp & en & url & Hm & Hurl & ->)]; [constructor|].
    repeat constructor. eapply Href; [apply list_elem_of_here|done..].
  - apply IH; [done|]. intros jp en url l' Hl'. apply Href. by right.
Qed.

Lemma reference_reread l jp en url :
  plain_urls image_for2 →
  ImageFetcher.pattern_match l = Some (jp, en) → image_for2 en = Some url →
  Forall (fun c => c ≠ NL) (image_link jp en url).
Proof.
  intros Hplain Hm Hurl. apply pattern_match_inv in Hm as (_ & _ & Hjp & Hen & _).
  apply image_link_forall; try done.
  - by vm_compute; repeat constructor.
  - eapply Forall_impl; [exact (Hplain _ _ Hurl)|]. by intros c [? ?].
Qed.

(** The lines of what a pass wrote, read back and scanned once more, come
    out as they are: the second pass inserts nothing. *)
Lemma rescan lines eof :
  plain_urls image_for2 →
  Forall terminated lines →
  let L := concat (readlines <$> (scan2 lines eof).1) in
  (scan2 L eof).1 = L ∧ head L = head lines.
Proof.
  intros Hplain. induction lines as [|l rest IH]; intros Hlines L; [done|].
  apply Forall_cons in Hlines as [Hl Hrest].
  destruct (IH Hrest) as [IHscan IHhead]. clear IH.
  subst L. rewrite scan_cons. cbn [fst].
  set (next := match rest with [] => eof | n :: _ => Some n end).
  set (Lrest := concat (readlines <$> (scan2 rest eof).1)) in *.
  assert (match Lrest with [] => eof | n :: _ => Some n end = next) as Hnext.
  { subst next. destruct rest as [|n rest'].
    - by vm_compute.
    - simpl in IHhead. by destruct Lrest as [|n' ?]; simplify_eq/=. }
  rewrite fmap_cons, fmap_app, concat_cons, concat_app.
  pose proof (readlines_terminated l [] Hl) as Hrl. rewrite app_nil_r in Hrl.
  change (readlines []) with (@nil str) in Hrl.
  rewrite Hrl. fold Lrest. cbn [app head]. split; [|done].
  destruct (after_line_inserts l next) as [Hins|(jp & en & url & Hm & Hurl & Hins)];
    rewrite Hins; cbn [fmap list_fmap concat app].
  - rewrite scan_cons. cbn [fst]. by rewrite Hnext, Hins, IHscan.
  - rewrite app_nil_r, image_reference_link.
    pose proof (reference_reread l jp en url Hplain Hm Hurl) as Hlink.
    change [NL; NL] with ([NL] ++ [NL]). rewrite app_assoc.
    rewrite readlines_terminated by by eexists.
    change (readlines [NL]) with [[NL]]. cbn [app].
    rewrite !scan_cons. cbn [fst].
    rewrite after_line_image by apply image_link_is_image.
    rewrite !after_line_no_marker by done.
    cbn [fst app]. by rewrite IHscan.
Qed.

(** What a pass writes ends, chunk by chunk, with a newline when the lines
    read do. *)
Lemma scan_chunks lines eof :
  Forall terminated lines →
  Forall (fun chunk => ∃ t, chunk = t ++ [NL]) (scan2 lines eof).1.
Proof.
  intros Hlines. apply scan_forall.
  - eapply Forall_impl; [exact Hlines|]. intros l (body & -> & _). eauto.
  - intros jp en url l _ _ _. rewrite image_reference_link.
    exists (image_link jp en url ++ [NL]). by rewrite <- app_assoc.
Qed.

Lemma readlines_chunks (chunks : list str) :
  Forall (fun chunk => ∃ t, chunk = t ++ [NL]) chunks →
  readlines (concat chunks) = concat (readlines <$> chunks).
Proof.
  induction 1 as [|chunk chunks [t ->] _ IH]; [done|].
  rewrite fmap_cons, !concat_cons, <- IH. unfold readlines.
  generalize (@nil char) at 1 3 as cur. generalize (concat chunks) as rest.
  clear. induction t as [|c t IHt]; intros rest cur; simpl.
  - done.
  - destruct (c =? NL); simpl; by rewrite IHt.
Qed.

(** X7. Where a second pass changes nothing: on a document whose last
    line is terminated, with sources that give URLs without line breaks,
    the second pass writes what the first pass wrote. *)
Lemma second_pass_same path w text :
  plain_urls image_for2 →
  read_text path w = Some text →
  text = [] ∨ (∃ t, text = t ++ [NL]) →
  ∃ w1 w2,
    ImageFetcher.process_file wikimedia google_books path w = Ok w1 ∧
    ImageFetcher.process_file wikimedia google_books path w1 = Ok w2 ∧
    files w2 = files w1.
Proof.
  intros Hplain Hread Hend.
  pose proof (readlines_all_terminated text Hend) as Hlines.
  set (out := (scan2 (readlines text) None).1).
  assert (Forall (fun c => c ≠ 13) text) as Hcr.
  { unfold read_text in Hread. destruct (files w !! path); [|done].
    injection Hread as <-. apply universal_newlines_no_cr. }
  assert (Forall (Forall (fun c => c ≠ 13)) out) as Hout.
  { apply scan_forall.
    - apply Forall_concat. by rewrite readlines_concat.
    - intros jp en url l Hl Hm Hurl. rewrite image_reference_link.
      apply Forall_app. split; [|by repeat constructor].
      assert (Forall (fun c => c ≠ 13) l) as Hlcr.
      { assert (Forall (Forall (fun c => c ≠ 13)) (readlines text)) as Hall
          by (apply Forall_concat; by rewrite readlines_concat).
        eapply Forall_forall in Hall; [exact Hall|done]. }
      apply pattern_match_inv in Hm as (_ & _ & _ & _ & a & b & c & ->).
      rewrite !Forall_app in Hlcr. destruct Hlcr as (_ & Hjp & _ & _ & Hen & _).
      apply image_link_forall; try done.
      + by vm_compute; repeat constructor.
      + eapply Forall_impl; [exact (Hplain _ _ Hurl)|]. by intros ? [? ?]. }
  eexists _, _. split; [by apply process_file_scan|]. split.
  - apply process_file_scan. unfold read_text. cbn [files print emit writelines emits].
    rewrite lookup_insert_eq. reflexivity.
  - cbn [files print emit writelines emits].
    rewrite insert_insert_eq. f_equal.
    rewrite universal_newlines_id by by apply Forall_concat.
    subst out.
    rewrite readlines_chunks by by apply scan_chunks.
    destruct (rescan (readlines text) None Hplain Hlines) as [-> _].
    rewrite <- readlines_chunks by by apply scan_chunks.
    apply readlines_concat.
Qed.

End SecondPass.

(** C1 fails on a document that ends with a marker line without a line
    terminator: the first pass writes the reference right after the
    marker, on the same line; the second pass reads that line as a marker
    line followed by an empty line, looks the name up again and inserts
    the reference a second time. *)
Theorem second_pass_inserts_again :
  ∃ w1 w2,
    ImageFetcher.process_file Sample.finds Sample.finds_nothing Sample.path
      (Sample.world_of Sample.text_unterminated) = Ok w1 ∧
    ImageFetcher.process_file Sample.finds Sample.finds_nothing Sample.path w1
      = Ok w2 ∧
    files w1 !! Sample.path =
      Some (Sample.heading ++ Sample.marker ++
            Sample.reference Sample.url ++ [NL; NL]) ∧
    files w2 !! Sample.path =
      Some (Sample.heading ++ Sample.marker ++
            Sample.reference Sample.url ++ [NL] ++
            Sample.reference Sample.url ++ [NL; NL] ++ [NL]) ∧
    files w2 !! Sample.path ≠ files w1 !! Sample.path.
Proof.
  eexists _, _. split; [by vm_compute|]. split; [by vm_compute|].
  by vm_compute.
Qed.

(** * Further properties *)

(** ** The marker pattern *)

(** The matcher finds a match whenever the pattern may match a beginning
    of the text and the rest of the pattern accepts what follows. *)
Section MatcherComplete.
Context {R : Type}.
Implicit Types (k : @Re.cont R) (s x : str) (g : Re.groups).

Lemma rep_greedy_complete p min x s' g k :
  Forall (fun c => Re.accepts p c = true) x → (min ≤ length x)%nat →
  is_Some (k s' g) → is_Some (Re.rep_greedy p min (x ++ s') g k).
Proof.
  intros Hx. revert min. induction Hx as [|c x Hc _ IH]; intros min Hmin Hk.
  - assert (min = 0%nat) as -> by (simpl in Hmin; lia). simpl.
    destruct s' as [|c s']; simpl; [done|].
    destruct (Re.accepts p c); [|done].
    by destruct (Re.rep_greedy p 0 s' g k).
  - cbn [app Re.rep_greedy]. rewrite Hc.
    destruct (IH (pred min)) as [r ->]; [simpl in Hmin; lia | done | eauto].
Qed.

Lemma rep_lazy_complete p min x s' g k :
  Forall (fun c => Re.accepts p c = true) x → (min ≤ length x)%nat →
  is_Some (k s' g) → is_Some (Re.rep_lazy p min (x ++ s') g k).
Proof.
  intros Hx. revert min. induction Hx as [|c x Hc _ IH]; intros min Hmin Hk.
  - assert (min = 0%nat) as -> by (simpl in Hmin; lia).
    destruct Hk as [r Hk]. destruct s'; simpl; rewrite Hk; eauto.
  - cbn [app Re.rep_lazy]. rewrite Hc.
    destruct (IH (pred min)) as [r Hr]; [simpl in Hmin; lia | done |].
    rewrite Hr. destruct min; [|eauto].
    destruct (k (c :: x ++ s') g); eauto.
Qed.

Lemma run_complete r x new s' g k :
  Re.matches r x new → is_Some (k s' (new ++ g)) →
  is_Some (Re.run r (x ++ s') g k).
Proof.
  intros Hm. revert s' g k.
  induction Hm as [|p c Hc|greedy min p x Hx Hmin|a b xa xb ga gb _ IHa _ IHb|n a x ga _ IHa];
    intros s' g k Hk; cbn [Re.run].
  - done.
  - simpl. by rewrite Hc.
  - destruct greedy; [by apply rep_greedy_complete | by apply rep_lazy_complete].
  - rewrite <- app_assoc. apply IHa. apply IHb. by rewrite app_assoc.
  - apply IHa. by rewrite length_app, Nat.add_sub, take_app_length.
Qed.

End MatcherComplete.

(** What a match of the marker pattern at the start of a line says of the
    line and of the two groups. *)
Lemma pattern_match_format line jp en :
  ImageFetcher.pattern_match line = Some (jp, en) →
  ∃ ws ws1 ws2 ws3 bar tail,
    line = marker_format ws ws1 jp ws2 en ws3 bar tail ∧
    blank ws = true ∧ blank ws1 = true ∧ blank ws2 = true ∧ blank ws3 = true ∧
    ws1 ≠ [] ∧ (bar = 65372 ∨ bar = 124).
Proof.
  unfold ImageFetcher.pattern_match, Re.match_. intros Hm.
  destruct (Re.run _ line [] _) as [m|] eqn:Hrun; [|done].
  apply run_sound in Hrun as (x & s' & new & -> & Hmatches & Hk).
  injection Hk as <-. cbn [mbind option_bind Re.caps] in Hm.
  rewrite app_nil_r in Hm.
  unfold ImageFetcher.pattern, ImageFetcher.seq, Re.RLit,
    ImageFetcher.spaces0, ImageFetcher.spaces1 in Hmatches.
  cbn [foldr] in Hmatches.
  repeat match goal with
  | H : Re.matches (Re.RSeq _ _) _ _ |- _ => inversion H; subst; clear H
  | H : Re.matches (Re.RGroup _ _) _ _ |- _ => inversion H; subst; clear H
  | H : Re.matches (Re.RChar _) _ _ |- _ => inversion H; subst; clear H
  | H : Re.matches Re.REps _ _ |- _ => inversion H; subst; clear H
  | H : Re.matches (Re.RRep _ _ _) _ _ |- _ => inversion H; subst; clear H
  end.
  cbn in Hm. injection Hm as <- <-.
  repeat match goal with
  | H : Re.accepts (Re.CLit _) _ = true |- _ =>
      cbn [Re.accepts] in H; apply N.eqb_eq in H; subst
  end.
  assert (∀ y : str, Forall (fun c => Re.accepts Re.CSpace c = true) y →
                     blank y = true) as Hspace.
  { intros y Hy. unfold blank. apply forallb_forall. intros d Hd.
    rewrite Forall_forall in Hy. apply (Hy d). by apply list_elem_of_In. }
  match goal with
  | H : Re.accepts (Re.CSet _) ?c = true |- _ =>
      exists xa, xa1, xa3, xa7, c, s'; cbn [Re.accepts existsb] in H;
      rewrite orb_false_r in H; apply orb_true_iff in H as [H|H];
      apply N.eqb_eq in H; subst c
  end.
  all: split_and!; auto; unfold marker_format; rewrite <- ?app_assoc; try done.
  all: intros ->; simpl in *; lia.
Qed.

(** X1. A line that the marker pattern matches has the marker format, and
    the two names captured are not empty and have no newline. *)
Theorem marker_line_format line jp en :
  ImageFetcher.pattern_match line = Some (jp, en) →
  jp ≠ [] ∧ en ≠ [] ∧
  Forall (fun c => c ≠ NL) jp ∧ Forall (fun c => c ≠ NL) en ∧
  ∃ ws ws1 ws2 ws3 bar tail,
    line = marker_format ws ws1 jp ws2 en ws3 bar tail ∧
    blank ws = true ∧ blank ws1 = true ∧ blank ws2 = true ∧ blank ws3 = true ∧
    ws1 ≠ [] ∧ (bar = 65372 ∨ bar = 124).
Proof.
  intros Hm.
  destruct (pattern_match_inv _ _ _ Hm) as (Hjp & Hen & Hjpnl & Hennl & _).
  split_and!; try done. by apply pattern_match_format.
Qed.

Lemma marker_line_format_witness :
  Sample.jp ≠ [] ∧ Sample.en ≠ [] ∧
  Forall (fun c => c ≠ NL) Sample.jp ∧ Forall (fun c => c ≠ NL) Sample.en ∧
  ∃ ws ws1 ws2 ws3 bar tail,
    Sample.marker ++ [NL]
      = marker_format ws ws1 Sample.jp ws2 Sample.en ws3 bar tail ∧
    blank ws = true ∧ blank ws1 = true ∧ blank ws2 = true ∧ blank ws3 = true ∧
    ws1 ≠ [] ∧ (bar = 65372 ∨ bar = 124).
Proof.
  apply (marker_line_format (Sample.marker ++ [NL]) Sample.jp Sample.en).
  by vm_compute.
Defined.

(** X2. Every line in the marker format, with names that are not empty and
    have no newline, is taken for a marker line. *)
Theorem marker_format_recognised ws ws1 jp ws2 en ws3 bar tail :
  blank ws = true → blank ws1 = true → blank ws2 = true → blank ws3 = true →
  ws1 ≠ [] → jp ≠ [] → en ≠ [] →
  Forall (fun c => c ≠ NL) jp → Forall (fun c => c ≠ NL) en →
  bar = 65372 ∨ bar = 124 →
  is_Some (ImageFetcher.pattern_match
             (marker_format ws ws1 jp ws2 en ws3 bar tail)).
Proof.
  intros Hws Hws1 Hws2 Hws3 Hne1 Hjp Hen Hjpnl Hennl Hbar.
  assert (∀ y : str, blank y = true →
            Forall (fun c => Re.accepts Re.CSpace c = true) y) as Hspace.
  { intros y Hy. apply Forall_forall. intros c Hc.
    unfold blank in Hy. rewrite forallb_forall in Hy. apply Hy.
    by apply list_elem_of_In. }
  assert (∀ y : str, Forall (fun c => c ≠ NL) y →
            Forall (fun c => Re.accepts Re.CDot c = true) y) as Hdot.
  { intros y Hy. eapply Forall_impl; [exact Hy|]. intros c Hc. simpl.
    by apply negb_true_iff, N.eqb_neq. }
  assert (∀ y : str, y ≠ [] → (1 ≤ length y)%nat) as Hlen.
  { intros [|? ?] ?; simpl; [done | lia]. }
  assert (Re.matches ImageFetcher.pattern
            (ws ++ ([42] ++ [42] ++ [9632] ++ []) ++ ws1 ++ jp ++ ws2 ++ [40]
             ++ en ++ [41] ++ ws3 ++ [bar] ++ [])
            (((((((((([] ++ []) ++ []) ++ []) ++ [(ImageFetcher.en_name, en)]) ++
                  []) ++ []) ++ [(ImageFetcher.jp_name, jp)]) ++ []) ++
               (([] ++ []) ++ []) ++ []) ++ [])) as Hmatches.
  { unfold ImageFetcher.pattern, ImageFetcher.seq, Re.RLit,
      ImageFetcher.spaces0, ImageFetcher.spaces1. cbn [foldr].
    repeat first
      [ apply Re.matches_seq | apply Re.matches_group | apply Re.matches_eps
      | apply Re.matches_rep; [by auto | by (auto || simpl; lia)]
      | apply Re.matches_char; simpl;
        first [ by rewrite N.eqb_refl
              | destruct Hbar as [-> | ->]; reflexivity ] ]. }
  unfold ImageFetcher.pattern_match.
  assert (is_Some (Re.match_ ImageFetcher.pattern
                     (marker_format ws ws1 jp ws2 en ws3 bar tail)))
    as [m Hm].
  { unfold Re.match_.
    replace (marker_format ws ws1 jp ws2 en ws3 bar tail)
      with ((ws ++ ([42] ++ [42] ++ [9632] ++ []) ++ ws1 ++ jp ++ ws2 ++ [40]
             ++ en ++ [41] ++ ws3 ++ [bar] ++ []) ++ tail)
      by (unfold marker_format; rewrite <- !app_assoc; simpl;
          by rewrite <- ?app_assoc).
    eapply run_complete; [exact Hmatches | eauto]. }
  assert (is_Some (ImageFetcher.pattern_match
                     (marker_format ws ws1 jp ws2 en ws3 bar tail))) as Hsome;
    [|exact Hsome].
  unfold ImageFetcher.pattern_match. rewrite Hm. cbn [mbind option_bind].
  unfold Re.match_ in Hm.
  apply run_sound in Hm as (x & s' & new & _ & Hmatches' & Hk).
  injection Hk as <-. cbn [Re.caps]. rewrite app_nil_r.
  unfold ImageFetcher.pattern, ImageFetcher.seq, Re.RLit,
    ImageFetcher.spaces0, ImageFetcher.spaces1 in Hmatches'.
  cbn [foldr] in Hmatches'.
  repeat match goal with
  | H : Re.matches (Re.RSeq _ _) _ _ |- _ => inversion H; subst; clear H
  | H : Re.matches (Re.RGroup _ _) _ _ |- _ => inversion H; subst; clear H
  | H : Re.matches (Re.RChar _) _ _ |- _ => inversion H; subst; clear H
  | H : Re.matches Re.REps _ _ |- _ => inversion H; subst; clear H
  | H : Re.matches (Re.RRep _ _ _) _ _ |- _ => inversion H; subst; clear H
  end.
  cbn. eauto.
Qed.

Lemma marker_format_recognised_witness :
  is_Some (ImageFetcher.pattern_match Sample2.marker_line).
Proof.
  apply (marker_format_recognised (lit "  ") (lit "  ") Sample.jp (lit "  ")
           Sample.en (lit " ") 124 (lit " Japan**" ++ [NL]));
    try (by vm_compute); try (by right).
  all: vm_compute; repeat constructor; done.
Defined.

(** ** ImageFetcher: what a pass does and does not do *)


(** An image line is not a marker line. *)
Lemma image_line_no_marker line :
  ImageFetcher.is_image_line line = true → ImageFetcher.pattern_match line = None.
Proof.
  intros Himg. destruct (ImageFetcher.pattern_match line) as [[jp en]|] eqn:Hm;
    [|done].
  apply pattern_match_format in Hm
    as (ws & ws1 & ws2 & ws3 & bar & tail & -> & Hws & _).
  unfold ImageFetcher.is_image_line, strip, marker_format in Himg.
  rewrite lstrip_app_space in Himg by done.
  cbn [app] in Himg. rewrite lstrip_nonspace, rstrip_nonspace in Himg by done.
  done.
Qed.

Section EnrichFacts.

Variable wikimedia : str → attempt (option str).
Variable google_books : str → attempt (option str).

Abbreviation process_loop3 := (ImageFetcher.process_loop wikimedia google_books).
Abbreviation process_file3 := (ImageFetcher.process_file wikimedia google_books).
Abbreviation scan3 := (ImageFetcher.scan wikimedia google_books).
Abbreviation after_line3 := (ImageFetcher.after_line wikimedia google_books).
Abbreviation image_for3 := (ImageFetcher.image_for wikimedia google_books).
Abbreviation reference_events3 :=
  (ImageFetcher.reference_events wikimedia google_books).




Lemma scan_no_marker lines eof :
  Forall (fun l => ImageFetcher.pattern_match l = None) lines →
  scan3 lines eof = (lines, []).
Proof.
  induction 1 as [|l rest Hl _ IH]; [done|].
  rewrite scan_cons, IH. unfold ImageFetcher.after_line. by rewrite Hl.
Qed.

(** X4. A pass over a document without a marker line writes the text back
    as it was read, asks no source, and logs only that it is done. *)
Theorem no_marker_no_change path w text :
  read_text path w = Some text →
  Forall (fun l => ImageFetcher.pattern_match l = None) (readlines text) →
  ∃ w',
    process_file3 path w = Ok w' ∧
    files w' !! path = Some text ∧
    trace w' = trace w ++ [Print (lit "Phase 1: Image injection complete.")].
Proof.
  intros Hread Hlines. eexists. split; [by apply process_file_scan|].
  rewrite files_after_pass, trace_after_pass, (scan_no_marker _ _ Hlines).
  cbn [fst snd app]. by rewrite readlines_concat.
Qed.

Lemma after_line_queries l next src q :
  (src, q) ∈ queries (after_line3 l next).2 →
  (src = ImageFetcher.wikimedia_url ∨ src = ImageFetcher.google_books_url) ∧
  ∃ jp, ImageFetcher.pattern_match l = Some (jp, q).
Proof.
  unfold ImageFetcher.after_line.
  destruct (ImageFetcher.pattern_match l) as [[jp en]|] eqn:Hm;
    [|by intros ?%elem_of_nil].
  assert ((src, q) ∈ queries (reference_events3 en) →
          (src = ImageFetcher.wikimedia_url ∨ src = ImageFetcher.google_books_url) ∧
          ∃ jp0, Some (jp, en) = Some (jp0, q)) as Href.
  { rewrite queries_reference_events.
    destruct (truthy _); intros Hin;
      repeat (apply elem_of_cons in Hin as [[= -> ->]|Hin]; [eauto|]);
      by apply elem_of_nil in Hin. }
  destruct next as [n|]; [destruct (ImageFetcher.is_image_line n)|]; try done.
  by intros ?%elem_of_nil.
Qed.

Lemma scan_queries lines eof src q :
  (src, q) ∈ queries (scan3 lines eof).2 →
  (src = ImageFetcher.wikimedia_url ∨ src = ImageFetcher.google_books_url) ∧
  ∃ l jp, l ∈ lines ∧ ImageFetcher.pattern_match l = Some (jp, q).
Proof.
  induction lines as [|l rest IH]; [by intros ?%elem_of_nil|].
  rewrite scan_cons. cbn [snd]. rewrite queries_app.
  intros [Hin|Hin]%elem_of_app.
  - apply after_line_queries in Hin as [Hsrc [jp Hjp]]. split; [done|].
    exists l, jp. split; [apply list_elem_of_here | done].
  - destruct (IH Hin) as [Hsrc (l' & jp & Hl' & Hjp)]. split; [done|].
    exists l', jp. split; [by right | done].
Qed.

(** X5. Every search of a pass goes to one of the two sources and asks for
    the second name of a marker line of the document, as it stands in
    that line. *)
Theorem queries_are_marker_names path w text :
  read_text path w = Some text →
  ∃ w' evs,
    process_file3 path w = Ok w' ∧ trace w' = trace w ++ evs ∧
    ∀ src q, (src, q) ∈ queries evs →
      (src = ImageFetcher.wikimedia_url ∨ src = ImageFetcher.google_books_url) ∧
      ∃ l jp, l ∈ readlines text ∧ ImageFetcher.pattern_match l = Some (jp, q).
Proof.
  intros Hread. eexists _, _. split; [by apply process_file_scan|].
  split; [apply trace_after_pass|].
  intros src q. rewrite queries_app. cbn [queries]. rewrite app_nil_r.
  apply scan_queries.
Qed.


(** X8. A marker line that is followed by an image line: the two turns of
    the loop on that pair copy both lines as they are, insert nothing,
    ask no source, and only log that the name is skipped. *)
Theorem enriched_marker_left_alone pre M L post jp en fuel acc w :
  ImageFetcher.pattern_match M = Some (jp, en) →
  ImageFetcher.is_image_line L = true →
  process_loop3 (S (S fuel)) (pre ++ M :: L :: post) (length pre) acc w =
    process_loop3 fuel (pre ++ M :: L :: post) (S (S (length pre)))
      (acc ++ [M; L])
      (print (lit "Skipping " ++ en ++ lit ", image already present.") w).
Proof.
  intros Hm HL. rewrite (marker_with_image_kept _ _ _ _ _ _ jp en) by done.
  cbn [ImageFetcher.process_loop].
  rewrite bool_decide_eq_true_2 by (rewrite length_app; simpl; lia).
  rewrite (cons_middle M), app_assoc.
  rewrite (list_lookup_middle _ _ L (S (length pre)))
    by (rewrite length_app; simpl; lia).
  rewrite (image_line_no_marker L HL). by rewrite <- (app_assoc acc).
Qed.




End EnrichFacts.


Lemma no_marker_no_change_witness :
  ∃ w',
    ImageFetcher.process_file Sample.finds Sample.finds_nothing Sample.path
      (Sample.world_of Sample2.plain_text) = Ok w' ∧
    files w' !! Sample.path = Some Sample2.plain_text ∧
    trace w' = [Print (lit "Phase 1: Image injection complete.")].
Proof.
  apply (no_marker_no_change Sample.finds Sample.finds_nothing Sample.path
           (Sample.world_of Sample2.plain_text) Sample2.plain_text).
  - by vm_compute.
  - vm_compute. by repeat constructor.
Defined.

Lemma queries_are_marker_names_witness :
  ∃ w' evs,
    ImageFetcher.process_file Sample.finds Sample.finds_nothing Sample.path
      (Sample.world_of Sample.text) = Ok w' ∧
    trace w' = trace (Sample.world_of Sample.text) ++ evs ∧
    ∀ src q, (src, q) ∈ queries evs →
      (src = ImageFetcher.wikimedia_url ∨ src = ImageFetcher.google_books_url) ∧
      ∃ l jp, l ∈ readlines Sample.text ∧
              ImageFetcher.pattern_match l = Some (jp, q).
Proof.
  apply (queries_are_marker_names Sample.finds Sample.finds_nothing Sample.path
           (Sample.world_of Sample.text) Sample.text).
  by vm_compute.
Defined.


Lemma enriched_marker_left_alone_witness :
  ImageFetcher.process_loop Sample.finds Sample.finds_cover 4
    (readlines Sample2.enriched_text) 1 [] Sample.empty_world =
  ImageFetcher.process_loop Sample.finds Sample.finds_cover 2
    (readlines Sample2.enriched_text) 3
    [Sample.marker ++ [NL]; lit "  " ++ Sample.reference Sample.url ++ [NL]]
    (print (lit "Skipping " ++ Sample.en ++ lit ", image already present.")
       Sample.empty_world).
Proof.
  apply (enriched_marker_left_alone Sample.finds Sample.finds_cover
           [Sample.heading] (Sample.marker ++ [NL])
           (lit "  " ++ Sample.reference Sample.url ++ [NL]) [Sample.note]
           Sample.jp Sample.en 2 [] Sample.empty_world); by vm_compute.
Defined.


Lemma second_pass_same_witness :
  ∃ w1 w2,
    ImageFetcher.process_file Sample.finds Sample.finds_nothing Sample.path
      (Sample.world_of Sample.text) = Ok w1 ∧
    ImageFetcher.process_file Sample.finds Sample.finds_nothing Sample.path w1
      = Ok w2 ∧
    files w2 = files w1.
Proof.
  apply (second_pass_same Sample.finds Sample.finds_nothing Sample.path
           (Sample.world_of Sample.text) Sample.text).
  - intros en url [= <-]. vm_compute. by repeat constructor.
  - by vm_compute.
  - right. exists (Sample.heading ++ Sample.marker ++ [NL] ++ lit "Born in Tokyo.").
    by vm_compute.
Defined.

(** ** WordPressPoster: more on articles *)

Lemma split_before_from_length tok cur s :
  tok ≠ [] → length (Re.split_before_from tok cur s) = S (occurrences tok s).
Proof.
  intros Htok. revert cur. induction s as [|c s IH]; intros cur.
  - simpl. by rewrite startswith_nil.
  - cbn [Re.split_before_from occurrences].
    destruct (startswith tok (c :: s)); simpl; by rewrite IH.
Qed.

Lemma occurrences_contains tok s :
  tok ≠ [] → occurrences tok s = 0%nat ↔ contains tok s = false.
Proof.
  intros Htok. induction s as [|c s IH].
  - simpl. rewrite startswith_nil by done. done.
  - cbn [occurrences contains]. destruct (startswith tok (c :: s)); simpl.
    + split; [lia | done].
    + exact IH.
Qed.

Lemma lstrip_idem s : lstrip (lstrip s) = lstrip s.
Proof.
  induction s as [|c s IH]; [done|]. simpl.
  destruct (isspace c) eqn:Hc; [done|]. simpl. by rewrite Hc.
Qed.

Lemma rstrip_idem s : rstrip (rstrip s) = rstrip s.
Proof. unfold rstrip. by rewrite reverse_involutive, lstrip_idem. Qed.

(** Stripping a stripped text changes nothing. *)
Lemma strip_idem s : strip (strip s) = strip s.
Proof.
  unfold strip. destruct (lstrip s) as [|c r] eqn:Hs; [done|].
  assert (isspace c = false) as Hc.
  { clear -Hs. induction s as [|d s IH]; [done|]. simpl in Hs.
    destruct (isspace d) eqn:Hd; [auto|]. by injection Hs as -> ->. }
  rewrite rstrip_nonspace, lstrip_nonspace by done.
  by rewrite <- (rstrip_nonspace c r Hc), rstrip_idem.
Qed.

Lemma strip_forall (P : char → Prop) s : Forall P s → Forall P (strip s).
Proof.
  intros Hs. unfold strip.
  destruct (lstrip_decompose s) as (ws & Hl & _).
  destruct (rstrip_decompose (lstrip s)) as (ws' & Hr & _).
  rewrite Hl, Hr in Hs. rewrite !Forall_app in Hs. tauto.
Qed.

(** The title of an article is one line, with no whitespace at its ends. *)
Lemma title_one_line part :
  Forall (fun c => c ≠ NL) (WordPressPoster.title_and_body part).1 ∧
  strip (WordPressPoster.title_and_body part).1 =
    (WordPressPoster.title_and_body part).1.
Proof.
  destruct (has_title part) eqn:Htitle.
  - destruct (title_and_body_found part Htitle)
      as (pre & rest & post & _ & _ & Hnl & _ & _ & ->).
    cbn [fst]. split; [by apply strip_forall | apply strip_idem].
  - rewrite (title_and_body_fallback part Htitle). cbn [fst].
    split; [|apply strip_idem].
    apply strip_forall. apply Forall_forall. intros c Hc.
    apply list_elem_of_filter in Hc as [_ Hc].
    pose proof (first_line_no_newline (strip part)) as Hfl.
    rewrite Forall_forall in Hfl. by apply Hfl.
Qed.

Section ArticleFacts.

Variable markdown : str → str.

(** X10. There are as many articles as there are places in the text where
    the header marker begins; a text without the marker, the empty text
    among them, gives none. *)
Theorem article_count text :
  length (WordPressPoster.split_articles markdown text) =
    occurrences WordPressPoster.header_marker text ∧
  (WordPressPoster.split_articles markdown text = [] ↔
   contains WordPressPoster.header_marker text = false).
Proof.
  destruct (sections_parts text) as (first & rest & Hsplit & _ & _ & _ & Hsec).
  assert (length (WordPressPoster.split_articles markdown text) =
          occurrences WordPressPoster.header_marker text) as Hlen.
  { unfold WordPressPoster.split_articles. rewrite length_fmap, Hsec.
    pose proof (split_before_from_length WordPressPoster.header_marker [] text
                  header_marker_nonempty) as Hl.
    unfold Re.split_before in Hsplit. rewrite Hsplit in Hl. simpl in Hl. lia. }
  split; [done|].
  rewrite <- occurrences_contains by apply header_marker_nonempty.
  rewrite <- Hlen. split; [by intros -> | by intros ?%nil_length_inv].
Qed.

(** X11. The title of every article is a single line (it holds no
    newline) and has no whitespace at either end. *)
Theorem titles_are_stripped_lines text :
  Forall (fun a => Forall (fun c => c ≠ NL) (WordPressPoster.title a) ∧
                   strip (WordPressPoster.title a) = WordPressPoster.title a)
         (WordPressPoster.split_articles markdown text).
Proof.
  unfold WordPressPoster.split_articles. apply Forall_fmap, Forall_forall.
  intros part _. unfold WordPressPoster.make_article. simpl.
  pose proof (title_one_line part) as Ht.
  by destruct (WordPressPoster.title_and_body part).
Qed.

End ArticleFacts.

(** ** WordPressPoster: more on publishing *)

Lemma print_keeps line w :
  files (print line w) = files w ∧
  environ (print line w) = environ w ∧
  queries (trace (print line w)) = queries (trace w).
Proof.
  unfold print, emit; cbn [files environ trace]. split_and!; try done.
  rewrite queries_app. simpl. by rewrite app_nil_r.
Qed.

Section PublishMore.

Variable wikimedia : str → attempt (option str).
Variable google_books : str → attempt (option str).
Variable markdown : str → str.
Variable wordpress : list event → str → str → str → submission.

Abbreviation post_article4 := (WordPressPoster.post_article wordpress).
Abbreviation post_all4 := (WordPressPoster.post_all wordpress).
Abbreviation process4 := (WordPressPoster.process markdown wordpress).

Lemma post_article_keeps self a w :
  files (post_article4 self a w) = files w ∧
  environ (post_article4 self a w) = environ w ∧
  queries (trace (post_article4 self a w)) = queries (trace w).
Proof.
  unfold WordPressPoster.post_article.
  destruct (WordPressPoster.dry_run self).
  - rewrite !print_emits, !emits_emits. unfold emits; cbn [files environ trace].
    split_and!; try done. rewrite queries_app. simpl. by rewrite app_nil_r.
  - destruct (wordpress _ _ _ _) as [id|e [t|]];
      rewrite ?print_emits, ?emit_emits, ?emits_emits;
      unfold emits; cbn [files environ trace]; split_and!; try done;
      rewrite queries_app; simpl; by rewrite app_nil_r.
Qed.

Lemma post_all_keeps self articles w :
  files (post_all4 self articles w) = files w ∧
  environ (post_all4 self articles w) = environ w ∧
  queries (trace (post_all4 self articles w)) = queries (trace w).
Proof.
  revert w. induction articles as [|a articles IH]; intros w; [done|].
  rewrite post_all_cons.
  destruct (IH (post_article4 self a w)) as (-> & -> & ->).
  apply post_article_keeps.
Qed.

(** X12. Publishing, in dry-run mode or not, writes no file, leaves the
    environment alone and makes no image search. *)
Theorem publisher_only_reads self w :
  files (process4 self w) = files w ∧
  environ (process4 self w) = environ w ∧
  queries (trace (process4 self w)) = queries (trace w).
Proof.
  unfold WordPressPoster.process. destruct (read_text _ w) as [text|].
  - destruct (print_keeps (lit "Phase 2: Complete.")
                (post_all4 self (WordPressPoster.split_articles markdown text)
                   (print (lit "Phase 2: Found " ++
                      str_of_nat (length (WordPressPoster.split_articles markdown text))
                      ++ lit " articles. Starting upload...") w)))
      as (-> & -> & ->).
    destruct (post_all_keeps self (WordPressPoster.split_articles markdown text)
                (print (lit "Phase 2: Found " ++
                   str_of_nat (length (WordPressPoster.split_articles markdown text))
                   ++ lit " articles. Starting upload...") w)) as (-> & -> & ->).
    apply print_keeps.
  - apply print_keeps.
Qed.

(** X13. With no flag on the command line, the three credentials set and
    not empty, and a site other than the placeholder, Phase 2 submits
    every article of the document, in order, as a draft, to the posts
    endpoint of the site, with the user and the password of the
    environment. *)
Theorem live_run_submits_drafts argv w user password site text :
  bool_decide (lit "--dry-run" ∈ argv) = false →
  getenv WordPressPoster.WP_USER w = Some user → user ≠ [] →
  getenv WordPressPoster.WP_APP_PASSWORD w = Some password → password ≠ [] →
  getenv WordPressPoster.WP_SITE_URL w = Some site → site ≠ [] →
  site ≠ lit "https://example.com" →
  read_text document w = Some text →
  submissions (trace (main_publish markdown wordpress argv w)) =
    submissions (trace w) ++
    ((fun a => Post (site ++ lit "/wp-json/wp/v2/posts")
                 (WordPressPoster.title a) (WordPressPoster.content a)
                 (lit "draft") (Some user, Some password))
     <$> WordPressPoster.split_articles markdown text).
Proof.
  intros Hflag Huser Hu Hpw Hp Hsite Hs Hplace Hread.
  unfold main_publish, main_dry_run.
  rewrite Hflag, bool_decide_eq_false_2 by (rewrite Hsite; congruence).
  unfold WordPressPoster.init. rewrite Huser, Hpw, Hsite.
  destruct user; [done|]. destruct password; [done|]. destruct site; [done|].
  cbn [truthy andb negb].
  unfold WordPressPoster.process. cbn [WordPressPoster.filepath]. rewrite Hread.
  rewrite !print_emits. unfold emits at 1; cbn [trace].
  rewrite submissions_app. cbn [submissions]. rewrite app_nil_r.
  rewrite post_all_live_submissions by done.
  unfold emits; cbn [trace]. rewrite submissions_app. cbn [submissions].
  by rewrite app_nil_r.
Qed.

(** What [__main__] logs and builds before Phase 2 reads the document. *)
Lemma main_poster argv w :
  ∃ notes self,
    (let '(dry, w1) := main_dry_run argv w in WordPressPoster.init document dry w1)
      = (self, emits (Print <$> notes) w) ∧
    WordPressPoster.filepath self = document ∧ (length notes ≤ 2)%nat.
Proof.
  unfold main_dry_run, WordPressPoster.init.
  case_bool_decide.
  { eexists [_], _. rewrite print_emits.
    split_and!; [reflexivity | done | simpl; lia]. }
  destruct (bool_decide (lit "--dry-run" ∈ argv)); cbn [negb andb].
  - eexists [], _. rewrite emits_nil.
    split_and!; [reflexivity | done | simpl; lia].
  - destruct (negb _).
    + eexists [_], _. rewrite print_emits.
      split_and!; [reflexivity | done | simpl; lia].
    + eexists [], _. rewrite emits_nil.
      split_and!; [reflexivity | done | simpl; lia].
Qed.

(** X14. When the document does not exist, the whole script logs "File
    not found" once in each phase (with at most two notes about the mode
    between them) and does nothing else: no file is written, no source is
    asked, nothing is submitted. *)
Theorem main_without_document argv w :
  files w !! document = None →
  ∃ notes w',
    main wikimedia google_books markdown wordpress argv w = Ok w' ∧
    files w' = files w ∧
    trace w' = trace w ++
      Print (lit "File not found: " ++ document) :: (Print <$> notes) ++
      [Print (lit "File not found: " ++ document)] ∧
    (length notes ≤ 2)%nat.
Proof.
  intros Hmissing. unfold main, ImageFetcher.process_file, read_text.
  rewrite Hmissing. cbn [fmap option_fmap option_map].
  unfold main_publish.
  destruct (main_poster argv (print (lit "File not found: " ++ document) w))
    as (notes & self & Hinit & Hpath & Hlen).
  destruct (main_dry_run argv _) as [dry w1]. rewrite Hinit.
  exists notes. eexists. split; [done|].
  unfold WordPressPoster.process, read_text. rewrite Hpath.
  cbn [files emits print emit]. rewrite Hmissing.
  cbn [fmap option_fmap option_map trace files]. split_and!; try done.
  unfold print, emit, emits; cbn [trace]. by rewrite <- !app_assoc.
Qed.

End PublishMore.

Lemma live_run_submits_drafts_witness :
  submissions (trace (main_publish Sample.render Sample.rejects Sample.argv
                        Sample2.configured)) =
    (fun a => Post (lit "https://blog.example.org" ++ lit "/wp-json/wp/v2/posts")
                (WordPressPoster.title a) (WordPressPoster.content a)
                (lit "draft") (Some (lit "editor"), Some (lit "secret")))
    <$> WordPressPoster.split_articles Sample.render Sample.articles_text.
Proof.
  apply (live_run_submits_drafts Sample.render Sample.rejects Sample.argv
           Sample2.configured (lit "editor") (lit "secret")
           (lit "https://blog.example.org") Sample.articles_text);
    by vm_compute.
Defined.

Lemma main_without_document_witness :
  ∃ notes w',
    main Sample.finds Sample.finds_cover Sample.render Sample.rejects
      Sample.argv Sample.empty_world = Ok w' ∧
    files w' = files Sample.empty_world ∧
    trace w' = trace Sample.empty_world ++
      Print (lit "File not found: " ++ document) :: (Print <$> notes) ++
      [Print (lit "File not found: " ++ document)] ∧
    (length notes ≤ 2)%nat.
Proof.
  apply (main_without_document Sample.finds Sample.finds_cover Sample.render
           Sample.rejects Sample.argv Sample.empty_world).
  by vm_compute.
Defined.

(** ** The image sources *)

Lemma at_index_first {A} (x : A) l : Json.at_index (x :: l) 0 = Some x.
Proof. done. Qed.

Section FetcherFacts.

Variable lower : str → str.

Abbreviation pages_loop5 := (Fetchers.pages_loop lower).
Abbreviation accepted u :=
  (Fetchers.endswith_any Fetchers.image_extensions (lower u)).

Lemma pages_loop_image pages ids url :
  pages_loop5 pages ids = Json.Val (Some url) → accepted url = true.
Proof.
  induction ids as [|page_id ids IH]; [done|]. cbn [Fetchers.pages_loop].
  unfold Json.bind.
  destruct (Json.subscript pages page_id) as [page|]; [|done].
  destruct (Json.get page _ _) as [image_info|]; [|done].
  destruct (Json.truth image_info); [|exact IH].
  destruct (Json.subscript image_info _) as [first|]; [|done].
  destruct (Json.subscript first _) as [u|]; [|done].
  destruct (Fetchers.lower_of lower u) as [[u' lowered]|] eqn:Hlow; [|done].
  destruct u; try done. injection Hlow as <- <-.
  destruct (accepted s) eqn:Hacc; [|exact IH].
  by intros [= <-].
Qed.

(** X15. A URL that [fetch_wikimedia_image] returns ends, once in lower
    case, with [.jpg], [.jpeg], [.png] or [.webp], whatever the answer of
    the search was. *)
Theorem wikimedia_result_is_image describe commons query url :
  ImageFetcher.fetched (Fetchers.wikimedia_of lower describe commons query)
    = Some url →
  Fetchers.endswith_any Fetchers.image_extensions (lower url) = true.
Proof.
  unfold Fetchers.wikimedia_of, Fetchers.fetch_wikimedia_image_try, Json.bind.
  destruct (commons query) as [data|]; [|done].
  destruct (Json.get data _ _) as [q|]; [|done].
  destruct (Json.get q _ _) as [pages|]; [|done].
  destruct (negb _); [done|].
  destruct (Json.iterate pages) as [ids|]; [|done].
  destruct (pages_loop5 pages ids) as [r|] eqn:Hloop; [|done].
  simpl. intros ->. by apply pages_loop_image in Hloop.
Qed.

(** X16. An answer without a [query], or whose [query] has no [pages], or
    whose [pages] is empty, gives [None] and no error. *)
Theorem wikimedia_without_pages data :
  Json.lookup_key data (lit "query") = None ∨
  (∃ q, Json.lookup_key data (lit "query") = Some (Json.Dict q) ∧
        (Json.lookup_key q (lit "pages") = None ∨
         ∃ pages, Json.lookup_key q (lit "pages") = Some pages ∧
                  Json.truth pages = false)) →
  Fetchers.fetch_wikimedia_image_try lower (Json.Val (Json.Dict data))
    = Json.Val None.
Proof.
  unfold Fetchers.fetch_wikimedia_image_try. cbn [Json.bind Json.get].
  intros [->|(q & -> & Hpages)]; cbn [default from_option id Json.bind Json.get]; [done|].
  destruct Hpages as [->|(pages & -> & Hp)]; cbn [default from_option id]; [done|].
  by rewrite Hp.
Qed.

Lemma lookup_key_elem items k v :
  NoDup items.*1 → (k, v) ∈ items → Json.lookup_key items k = Some v.
Proof.
  induction items as [|[k' v'] items IH]; [by intros _ ?%elem_of_nil|].
  cbn [fmap list_fmap fst Json.lookup_key].
  intros [Hk' Hnd]%NoDup_cons [[= -> ->]|Hin]%elem_of_cons.
  - by rewrite bool_decide_eq_true_2.
  - rewrite bool_decide_eq_false_2; [by apply IH|].
    intros ->. apply Hk'. apply list_elem_of_fmap. by exists (k, v).
Qed.

(** One turn of the loop over the pages, by what the page offers. *)
Lemma pages_loop_skip pages k page ids :
  Json.lookup_key pages k = Some page →
  offers page None ∨ (∃ u, offers page (Some u) ∧ accepted u = false) →
  pages_loop5 (Json.Dict pages) (Json.Str k :: ids)
    = pages_loop5 (Json.Dict pages) ids.
Proof.
  intros Hk Hoffer. cbn [Fetchers.pages_loop Json.subscript]. rewrite Hk.
  cbn [Json.bind].
  destruct Hoffer as [(fields & -> & Hnone)|(u & (fields & -> & info & rest & Hinfo & Hurl) & Hrej)];
    cbn [Json.get Json.bind].
  - by rewrite Hnone.
  - rewrite Hinfo. cbn [default from_option id Json.truth Json.subscript Json.as_index Json.bind].
    rewrite at_index_first. cbn [Json.bind Json.subscript]. rewrite Hurl.
    cbn [Json.bind Fetchers.lower_of]. by rewrite Hrej.
Qed.

Lemma pages_loop_take pages k page u ids :
  Json.lookup_key pages k = Some page →
  offers page (Some u) → accepted u = true →
  pages_loop5 (Json.Dict pages) (Json.Str k :: ids) = Json.Val (Some u).
Proof.
  intros Hk (fields & -> & info & rest & Hinfo & Hurl) Hacc.
  cbn [Fetchers.pages_loop Json.subscript]. rewrite Hk.
  cbn [Json.bind Json.get]. rewrite Hinfo.
  cbn [default from_option id Json.truth Json.subscript Json.as_index Json.bind].
  rewrite at_index_first. cbn [Json.bind Json.subscript]. rewrite Hurl.
  cbn [Json.bind Fetchers.lower_of]. by rewrite Hacc.
Qed.

Lemma first_image_cons url urls :
  first_image lower (url :: urls) =
    match url with
    | Some u => if accepted u then Some u else first_image lower urls
    | None => first_image lower urls
    end.
Proof.
  unfold first_image. destruct url as [u|]; [|done].
  change (omap id (Some u :: urls)) with (u :: omap id urls).
  destruct (accepted u) eqn:Hacc.
  - rewrite filter_cons_True; [done | by apply Is_true_true].
  - rewrite filter_cons_False; [done | by apply Is_true_false].
Qed.

Lemma pages_loop_offers pages (part : list (str * Json.value)) urls ids :
  (∀ k v, (k, v) ∈ part → Json.lookup_key pages k = Some v) →
  Forall2 offers part.*2 urls →
  pages_loop5 (Json.Dict pages) (((fun kv => Json.Str kv.1) <$> part) ++ ids) =
    match first_image lower urls with
    | Some u => Json.Val (Some u)
    | None => pages_loop5 (Json.Dict pages) ids
    end.
Proof.
  revert urls. induction part as [|[k page] part IH]; intros urls Hkeys Hoffers.
  - apply Forall2_nil_inv_l in Hoffers as ->. done.
  - cbn [fmap list_fmap snd] in Hoffers.
    apply Forall2_cons_inv_l in Hoffers as (url & urls' & Hoffer & Hrest & ->).
    assert (Json.lookup_key pages k = Some page) as Hk
      by (apply Hkeys; apply list_elem_of_here).
    assert (∀ k' v, (k', v) ∈ part → Json.lookup_key pages k' = Some v) as Hkeys'
      by (intros k' v Hin; apply Hkeys; by right).
    specialize (IH urls' Hkeys' Hrest).
    cbn [fmap list_fmap app fst]. rewrite first_image_cons.
    destruct url as [u|].
    + destruct (accepted u) eqn:Hacc.
      * by apply (pages_loop_take pages k page u).
      * rewrite (pages_loop_skip pages k page) by eauto. exact IH.
    + rewrite (pages_loop_skip pages k page) by eauto. exact IH.
Qed.

(** X17. On an answer whose pages each offer one URL or none, the result
    is the first URL, in the order of the pages, with an image extension;
    pages without image and URLs of another kind are passed over. *)
Theorem wikimedia_first_image data q pages urls :
  Json.lookup_key data (lit "query") = Some (Json.Dict q) →
  Json.lookup_key q (lit "pages") = Some (Json.Dict pages) →
  NoDup pages.*1 →
  Forall2 offers pages.*2 urls →
  Fetchers.fetch_wikimedia_image_try lower (Json.Val (Json.Dict data))
    = Json.Val (first_image lower urls).
Proof.
  intros Hq Hp Hnd Hoffers. unfold Fetchers.fetch_wikimedia_image_try.
  cbn [Json.bind Json.get]. rewrite Hq. cbn [default from_option id Json.bind Json.get].
  rewrite Hp. cbn [default from_option id].
  destruct pages as [|kv pages'] eqn:Hpages.
  { apply Forall2_nil_inv_l in Hoffers as ->. done. }
  rewrite <- Hpages in *. assert (Json.truth (Json.Dict pages) = true) as ->
    by by rewrite Hpages.
  cbn [negb Json.iterate Json.bind].
  rewrite <- (app_nil_r (_ <$> pages)).
  rewrite (pages_loop_offers pages pages urls []); [|by intros; apply lookup_key_elem|done].
  by destruct (first_image lower urls).
Qed.

(** X18. A page whose first [imageinfo] entry has no [url], met before any
    image was found, ends the search with a [KeyError]: the fetcher logs
    it and returns [None], whatever the pages after it offer. *)
Theorem wikimedia_broken_page describe commons query data q pre k fields info rest post urls :
  commons query = Json.Val (Json.Dict data) →
  Json.lookup_key data (lit "query") = Some (Json.Dict q) →
  Json.lookup_key q (lit "pages")
    = Some (Json.Dict (pre ++ (k, Json.Dict fields) :: post)) →
  NoDup (pre ++ (k, Json.Dict fields) :: post).*1 →
  Forall2 offers pre.*2 urls → first_image lower urls = None →
  Json.lookup_key fields (lit "imageinfo")
    = Some (Json.List (Json.Dict info :: rest)) →
  Json.lookup_key info (lit "url") = None →
  Fetchers.wikimedia_of lower describe commons query
    = Raised (describe (Json.KeyError (Json.Str (lit "url")))).
Proof.
  intros Hc Hq Hp Hnd Hoffers Hnone Hinfo Hurl.
  unfold Fetchers.wikimedia_of, Fetchers.fetch_wikimedia_image_try. rewrite Hc.
  cbn [Json.bind Json.get]. rewrite Hq. cbn [default from_option id Json.bind Json.get].
  rewrite Hp. cbn [default from_option id].
  set (pages := pre ++ (k, Json.Dict fields) :: post) in *.
  assert (Json.truth (Json.Dict pages) = true) as ->
    by (subst pages; by destruct pre).
  cbn [negb Json.iterate Json.bind].
  assert (∀ k' v, (k', v) ∈ pages → Json.lookup_key pages k' = Some v) as Hkeys
    by (intros; by apply lookup_key_elem).
  subst pages. rewrite fmap_app.
  rewrite (pages_loop_offers _ pre urls);
    [|intros k' v Hin; apply Hkeys; apply elem_of_app; by left|done].
  rewrite Hnone. cbn [fmap list_fmap fst Fetchers.pages_loop Json.subscript].
  rewrite (Hkeys k (Json.Dict fields))
    by (apply elem_of_app; right; apply list_elem_of_here).
  cbn [Json.bind Json.get]. rewrite Hinfo.
  cbn [default from_option id Json.truth Json.subscript Json.as_index Json.bind].
  rewrite at_index_first. cbn [Json.bind Json.subscript]. by rewrite Hurl.
Qed.

(** X19. The book search looks at the first volume only: its thumbnail is
    returned as it is, with no test of its extension; a volume without
    [volumeInfo], [imageLinks] or [thumbnail], and an answer without
    volumes, give [None] and no error. *)
Theorem google_books_first_volume data :
  (Json.truth (default (Json.List []) (Json.lookup_key data (lit "items")))
     = false →
   Fetchers.fetch_google_books_image_try (Json.Val (Json.Dict data))
     = Json.Val Json.Null) ∧
  (∀ volume others,
     Json.lookup_key data (lit "items")
       = Some (Json.List (Json.Dict volume :: others)) →
     (Json.lookup_key volume (lit "volumeInfo") = None →
      Fetchers.fetch_google_books_image_try (Json.Val (Json.Dict data))
        = Json.Val Json.Null) ∧
     (∀ volume_info,
        Json.lookup_key volume (lit "volumeInfo") = Some (Json.Dict volume_info) →
        (Json.lookup_key volume_info (lit "imageLinks") = None →
         Fetchers.fetch_google_books_image_try (Json.Val (Json.Dict data))
           = Json.Val Json.Null) ∧
        (∀ image_links,
           Json.lookup_key volume_info (lit "imageLinks")
             = Some (Json.Dict image_links) →
           Fetchers.fetch_google_books_image_try (Json.Val (Json.Dict data))
             = Json.Val (default Json.Null
                           (Json.lookup_key image_links (lit "thumbnail")))))).
Proof.
  unfold Fetchers.fetch_google_books_image_try. cbn [Json.bind Json.get].
  split.
  - by intros ->.
  - intros volume others ->.
    cbn [default from_option id Json.truth negb Json.subscript Json.as_index Json.bind].
    rewrite at_index_first. cbn [Json.bind Json.get].
    split; [by intros ->|]. intros volume_info ->.
    cbn [default from_option id Json.bind Json.get].
    split; [by intros ->|]. by intros image_links ->.
Qed.

End FetcherFacts.

Lemma wikimedia_result_is_image_witness :
  Fetchers.endswith_any Fetchers.image_extensions
    (Sample2.ascii_lower (lit "https://upload.example.org/Kimura.JPG")) = true.
Proof.
  apply (wikimedia_result_is_image Sample2.ascii_lower (fun _ => lit "error")
           (fun _ => Json.Val (Sample2.answer Sample2.two_pages)) Sample.en).
  by vm_compute.
Defined.

Lemma wikimedia_without_pages_witness :
  Fetchers.fetch_wikimedia_image_try Sample2.ascii_lower
    (Json.Val (Json.Dict [(lit "batchcomplete", Json.Str [])])) = Json.Val None.
Proof.
  apply (wikimedia_without_pages Sample2.ascii_lower
           [(lit "batchcomplete", Json.Str [])]).
  left. by vm_compute.
Defined.

Lemma wikimedia_first_image_witness :
  Fetchers.fetch_wikimedia_image_try Sample2.ascii_lower
    (Json.Val (Sample2.answer Sample2.two_pages))
  = Json.Val (first_image Sample2.ascii_lower
                [Some (lit "https://upload.example.org/Kimura.PDF");
                 Some (lit "https://upload.example.org/Kimura.JPG")]).
Proof.
  apply (wikimedia_first_image Sample2.ascii_lower
           (Sample2.answer_items Sample2.two_pages)
           [(lit "pages", Json.Dict Sample2.two_pages)] Sample2.two_pages).
  - by vm_compute.
  - by vm_compute.
  - vm_compute. repeat constructor; intros Hin;
      repeat (apply elem_of_cons in Hin as [? | Hin]; [done|]);
      by apply elem_of_nil in Hin.
  - repeat constructor; eexists; (split; [reflexivity|]);
      eexists _, _; split; by vm_compute.
Defined.

Lemma wikimedia_broken_page_witness :
  Fetchers.wikimedia_of Sample2.ascii_lower (fun _ => lit "error")
    (fun _ => Json.Val (Sample2.answer (Sample2.broken_page :: Sample2.two_pages)))
    Sample.en
  = Raised (lit "error").
Proof.
  apply (wikimedia_broken_page Sample2.ascii_lower (fun _ => lit "error")
           (fun _ => Json.Val (Sample2.answer (Sample2.broken_page :: Sample2.two_pages)))
           Sample.en
           (Sample2.answer_items (Sample2.broken_page :: Sample2.two_pages))
           [(lit "pages", Json.Dict (Sample2.broken_page :: Sample2.two_pages))]
           [] (lit "100")
           [(lit "imageinfo", Json.List [Json.Dict [(lit "size", Json.Int 3)]])]
           [(lit "size", Json.Int 3)] [] Sample2.two_pages []);
    try (by vm_compute); try (by constructor).
  vm_compute. repeat constructor; intros Hin;
    repeat (apply elem_of_cons in Hin as [? | Hin]; [done|]);
    by apply elem_of_nil in Hin.
Defined.

Lemma google_books_first_volume_witness :
  Fetchers.fetch_google_books_image_try (Json.Val (Json.Dict Sample2.volumes))
    = Json.Val (Json.Str Sample.thumbnail).
Proof.
  destruct (google_books_first_volume Sample2.volumes) as [_ Hfirst].
  destruct (Hfirst Sample2.volume [Json.Dict [(lit "volumeInfo", Json.Dict [])]])
    as [_ Hinfo]; [by vm_compute|].
  destruct (Hinfo Sample2.volume_info) as [_ Hlinks]; [by vm_compute|].
  rewrite (Hlinks Sample2.image_links); by vm_compute.
Defined.
